(** * scrape.py: xSOL fixed-APY divergence monitor

    A shallow embedding of [src/scrape.py] and the properties of its
    percent parser, row extractor, retrying fetcher, divergence evaluator
    and notifier.

    Conventions of the embedding.
    - A Python [str] / JavaScript string is a [text], the list of its code
      points; the development covers code points U+0000..U+00FF, held in
      [ascii].
    - A Python [float] is an IEEE 754 binary64 primitive [float].
    - Playwright, the page under observation and the HTTP transport are the
      environment: their answers are fields of [env], their effects are
      recorded in [world]. *)

From Stdlib Require Import ZArith String Ascii Bool Lia Floats List.
From Stdlib Require DecimalString.
Import ListNotations.

Set Implicit Arguments.
Set Warnings "-register-all".

(** ** Text *)

Module Text.

Definition text := list ascii.

Definition txt (s : string) : text := list_ascii_of_string s.

Definition code (c : ascii) : N := N_of_ascii c.

Definition in_range (lo hi : N) (c : ascii) : bool :=
  (lo <=? code c)%N && (code c <=? hi)%N.

(** [\d] of Python's [re] on [str]: the decimal digits. *)
Definition is_digit (c : ascii) : bool := in_range 48 57 c.

(** [\s] of Python's [re] on [str], i.e. [str.isspace]: TAB..CR, FS..US,
    SPACE, NEL and NBSP. *)
Definition py_space (c : ascii) : bool :=
  in_range 9 13 c || in_range 28 32 c
  || (code c =? 133)%N || (code c =? 160)%N.

(** White space and line terminators of ECMAScript, as stripped by
    [String.prototype.trim]. *)
Definition js_space (c : ascii) : bool :=
  in_range 9 13 c || (code c =? 32)%N || (code c =? 160)%N.

Fixpoint take_while (p : ascii -> bool) (s : text) : text :=
  match s with
  | c :: r => if p c then c :: take_while p r else []
  | [] => []
  end.

Fixpoint drop_while (p : ascii -> bool) (s : text) : text :=
  match s with
  | c :: r => if p c then drop_while p r else s
  | [] => []
  end.

(** [s.trim()] *)
Definition trim (s : text) : text :=
  rev (drop_while js_space (rev (drop_while js_space s))).

(** One code point of [s.toLowerCase()]: A-Z and the Latin-1 capitals
    (U+00C0..U+00DE but the multiplication sign) move up by 32. *)
Definition lower (c : ascii) : ascii :=
  if in_range 65 90 c
     || (in_range 192 222 c && negb (code c =? 215)%N)
  then ascii_of_N (code c + 32)
  else c.

Definition toLowerCase (s : text) : text := map lower s.

Fixpoint starts_with (needle s : text) : bool :=
  match needle, s with
  | [], _ => true
  | n :: needle', c :: s' => Ascii.eqb n c && starts_with needle' s'
  | _ :: _, [] => false
  end.

(** [s.includes(needle)] *)
Fixpoint includes (needle s : text) : bool :=
  starts_with needle s
  || match s with
     | _ :: s' => includes needle s'
     | [] => false
     end.

(** Truthiness of a JavaScript string: non-empty. *)
Definition truthy (s : text) : bool :=
  match s with [] => false | _ :: _ => true end.

End Text.

Import Text.

(** ** Percent parser: [PCT_RE] and [float(m.group(1))] *)

Module PctRe.

Definition orelse {A} (a b : option A) : option A :=
  match a with
  | Some x => Some x
  | None => b
  end.

(** The backtracking matcher of [re], specialised to the constructs of
    [PCT_RE]; a continuation receives what the construct consumed and
    what is left, and a [None] from it makes the construct try its next
    alternative. *)
Section Backtracking.
Variable A : Type.

(** A literal character. *)
Definition lit (c : ascii) (s : text) (k : text -> option A) : option A :=
  match s with
  | x :: r => if Ascii.eqb x c then k r else None
  | [] => None
  end.

(** Greedy [p*]: the longest run first, then one character fewer. *)
Fixpoint star (p : ascii -> bool) (s : text)
         (k : text -> text -> option A) : option A :=
  match s with
  | c :: r =>
      if p c
      then orelse (star p r (fun m r' => k (c :: m) r')) (k [] s)
      else k [] s
  | [] => k [] s
  end.

(** Greedy [p+]. *)
Definition plus (p : ascii -> bool) (s : text)
           (k : text -> text -> option A) : option A :=
  match s with
  | c :: r => if p c then star p r (fun m r' => k (c :: m) r') else None
  | [] => None
  end.
End Backtracking.

(** [(-?\d+(?:\.\d+)?)\s*%] anchored at the head of [s]; the result is
    group 1. *)
Definition match_here (s : text) : option text :=
  let number (sign : text) (r1 : text) :=
    plus is_digit r1 (fun ds r2 =>
      let tail (frac : text) (r5 : text) :=
        star py_space r5 (fun _ r6 =>
          lit "%" r6 (fun _ => Some (sign ++ ds ++ frac))) in
      orelse
        (lit "." r2 (fun r3 =>
           plus is_digit r3 (fun fs r4 => tail ("."%char :: fs) r4)))
        (tail [] r2)) in
  orelse (lit "-" s (fun r1 => number ["-"%char] r1)) (number [] s).

(** [PCT_RE.search(s)]: the leftmost start position that matches. *)
Fixpoint search (s : text) : option text :=
  orelse (match_here s)
         (match s with
          | _ :: r => search r
          | [] => None
          end).

(** Value of a run of decimal digits. *)
Definition digit_val (c : ascii) : Z := Z.of_N (code c) - 48.

Definition digits_val (ds : text) : Z :=
  fold_left (fun acc c => 10 * acc + digit_val c)%Z ds 0%Z.

(** Correctly rounded binary64 of [(-1)^neg * n / 10^k]. *)
Definition round_decimal (neg : bool) (n : Z) (k : nat) : float :=
  SF2Prim
    (if (n =? 0)%Z then S754_zero neg
     else SFdiv prec emax
                (S754_finite neg (Z.to_pos n) 0)
                (S754_finite false (Z.to_pos (10 ^ Z.of_nat k)) 0)).

(** [float(g)] on the texts [PCT_RE] can capture: an optional minus, an
    integer part and an optional fraction.  Any other text is answered
    [None], Python's [ValueError] in this model. *)
Definition py_float (g : text) : option float :=
  let (neg, body) :=
    match g with
    | c :: r => if Ascii.eqb c "-" then (true, r) else (false, g)
    | [] => (false, g)
    end in
  let ip := take_while is_digit body in
  let fp :=
    match drop_while is_digit body with
    | [] => Some []
    | c :: f =>
        if Ascii.eqb c "." && forallb is_digit f && truthy f
        then Some f else None
    end in
  match ip, fp with
  | _ :: _, Some f =>
      Some (round_decimal neg (digits_val (ip ++ f)) (length f))
  | _, _ => None
  end.

(** The parser as the program uses it. *)
Definition parse_percent (s : text) : option float :=
  match search s with
  | Some g => py_float g
  | None => None
  end.

End PctRe.

Import PctRe.

(** ** The page: elements, selectors and the in-page script *)

Module Dom.

(** An element as the script sees it: its tag (the local name, in lower
    case, which is what a type selector compares), its [innerText] as the
    rendering engine computes it ([None] where the property is
    [undefined], as on SVG elements) and its child elements. *)
Inductive element : Type :=
| Element (tag : string) (innerText : option text)
          (children : list element).

Definition tag_of (e : element) : string :=
  match e with Element t _ _ => t end.

Definition innerText (e : element) : option text :=
  match e with Element _ i _ => i end.

Definition children (e : element) : list element :=
  match e with Element _ _ cs => cs end.

(** [x || ''] on a string-or-undefined. *)
Definition or_empty (x : option text) : text :=
  match x with
  | Some t => if truthy t then t else []
  | None => []
  end.

(** An element followed by its descendants, in document order. *)
Fixpoint subtree (e : element) : list element :=
  match e with
  | Element _ _ cs => e :: flat_map subtree cs
  end.

(** The descendants of an element, in document order. *)
Definition descendants (e : element) : list element :=
  flat_map subtree (children e).

Inductive selector : Type :=
| Tag (name : string)
| Any.

Definition matches (sel : selector) (e : element) : bool :=
  match sel with
  | Tag name => String.eqb (tag_of e) name
  | Any => true
  end.

(** [e.querySelectorAll(sel)] *)
Definition querySelectorAll (sel : selector) (e : element) : list element :=
  filter (matches sel) (descendants e).

(** A document, given by its root element; [document.querySelectorAll]. *)
Definition document := element.

Definition document_querySelectorAll (sel : selector) (d : document)
  : list element :=
  filter (matches sel) (subtree d).

End Dom.

Import Dom.

Module Script.

(** One entry of the script's result: [{ rowText, apyText }]. *)
Record extracted_row : Type :=
  { rowText : text; apyText : text }.

(** The candidate taken from the 4th [td]: [tds[3]] exists exactly when
    [tds.length >= 4]; otherwise [apyText] keeps its initial ['']. *)
Definition fourth_cell (r : element) : text :=
  match nth_error (querySelectorAll (Tag "td") r) 3 with
  | Some td => trim (or_empty (innerText td))
  | None => []
  end.

Definition has_percent (t : text) : bool := includes (txt "%") t.

(** The fallback: the first descendant text that is non-empty and holds
    a percent sign replaces [apyText], trimmed; with none, [apyText] is
    left as it is. *)
Definition fallback (r : element) (apyText0 : text) : text :=
  let descendantTexts :=
    map (fun el => or_empty (innerText el)) (querySelectorAll Any r) in
  match find (fun t => truthy t && has_percent t) descendantTexts with
  | Some found => if truthy found then trim found else apyText0
  | None => apyText0
  end.

Definition apy_text_of (r : element) : text :=
  let apyText0 := fourth_cell r in
  if negb (truthy apyText0) || negb (has_percent apyText0)
  then fallback r apyText0
  else apyText0.

Definition row_text_of (r : element) : text :=
  trim (or_empty (innerText r)).

Definition mentions_xsol (rowText0 : text) : bool :=
  includes (txt "xsol") (toLowerCase rowText0).

(** The body of [rows.forEach]: one row against the accumulator [out]. *)
Definition visit_row (out : list extracted_row) (r : element)
  : list extracted_row :=
  let rowText0 := row_text_of r in
  if mentions_xsol rowText0
  then out ++ [{| rowText := rowText0; apyText := apy_text_of r |}]
  else out.

(** The script passed to [page.evaluate]. *)
Definition page_script (d : document) : list extracted_row :=
  fold_left visit_row (document_querySelectorAll (Tag "tr") d) [].

End Script.

Import Script.

(** ** Parsing one attempt's rows (the [for item in raw] loop) *)

Module Parse.

Record debug_entry : Type :=
  { dbg_rowText : text; dbg_apyText : text }.

Definition parse_item (acc : list float * list debug_entry)
           (item : extracted_row) : list float * list debug_entry :=
  let (apys, debug) := acc in
  let row_text := rowText item in
  let apy_text := apyText item in
  let unparsed :=
    {| dbg_rowText := row_text; dbg_apyText := apy_text |} in
  match orelse (search apy_text) (search row_text) with
  | Some g =>
      match py_float g with
      | Some v => (apys ++ [v], debug)
      | None => (apys, debug ++ [unparsed])
      end
  | None => (apys, debug ++ [unparsed])
  end.

Definition parse_rows (raw : list extracted_row)
  : list float * list debug_entry :=
  fold_left parse_item raw ([], []).

Definition values_of (raw : list extracted_row) : list float :=
  fst (parse_rows raw).

End Parse.

Import Parse.

(** ** Divergence evaluation and the [.2f] rendering *)

Module Evaluate.

Record AlertDecision : Type :=
  { first : float; second : float; difference : float;
    shouldAlert : bool }.

(** Lines 144-148 of [main]: [apys[0]], [apys[1]], [abs] of their
    difference and [diff >= THRESHOLD].  [None] is the [IndexError] of a
    list shorter than two. *)
Definition evaluate (values : list float) (threshold : float)
  : option AlertDecision :=
  match values with
  | apy1 :: apy2 :: _ =>
      let diff := abs (apy1 - apy2)%float in
      Some {| first := apy1; second := apy2; difference := diff;
              shouldAlert := (threshold <=? diff)%float |}
  | _ => None
  end.

(** Nearest integer to [num / den], ties to even, for [den > 0]. *)
Definition round_half_even (num den : Z) : Z :=
  let q := (num / den)%Z in
  match (2 * (num mod den) ?= den)%Z with
  | Lt => q
  | Gt => (q + 1)%Z
  | Eq => if Z.even q then q else (q + 1)%Z
  end.

(** [m * 2^e] in hundredths, correctly rounded. *)
Definition hundredths (m : positive) (e : Z) : Z :=
  if (0 <=? e)%Z then (100 * Zpos m * 2 ^ e)%Z
  else round_half_even (100 * Zpos m) (2 ^ (- e)).

(** The decimal digits of a natural number. *)
Definition decimal (n : Z) : text :=
  list_ascii_of_string
    (DecimalString.NilZero.string_of_uint (N.to_uint (Z.to_N n))).

Definition two_digits (n : Z) : text :=
  (if (n <? 10)%Z then txt "0" else []) ++ decimal n.

Definition minus_if (s : bool) : text := if s then txt "-" else [].

(** [format(x, '.2f')], the rendering of [{diff:.2f}]. *)
Definition format_2f (x : float) : text :=
  match Prim2SF x with
  | S754_nan => txt "nan"
  | S754_infinity s => minus_if s ++ txt "inf"
  | S754_zero s => minus_if s ++ txt "0.00"
  | S754_finite s m e =>
      let h := hundredths m e in
      minus_if s ++ decimal (h / 100) ++ txt "." ++ two_digits (h mod 100)
  end.

End Evaluate.

Import Evaluate.

(** ** Configuration *)

Module Config.

(** The constants the claims range over.  [BASE_WAIT_SECONDS] is the
    whole number of seconds the source writes [2.0]; [THRESHOLD], the
    integer 3 of the source, is the float that [diff >= THRESHOLD] compares
    with. *)
Record config : Type :=
  { MAX_ATTEMPTS : Z;
    BASE_WAIT_SECONDS : Z;
    THRESHOLD : float }.

Definition URL : string := "https://www.exponent.finance/income".
Definition CHAT_ID : string := "@lswcoinm".

(** The constants of the source. *)
Definition source_config : config :=
  {| MAX_ATTEMPTS := 4; BASE_WAIT_SECONDS := 2; THRESHOLD := 3 |}.

End Config.

Import Config.

(** ** Effects: exceptions, the world and a state-and-exception monad *)

Module Runtime.

(** The exceptions the program can meet.  All are subclasses of Python's
    [Exception]. *)
Inductive exn : Type :=
| NavigationError              (* page.goto failed or timed out *)
| UnboundLocalError (name : string)
| IndexError
| ConnectionError              (* requests: network failure *)
| ReadTimeout                  (* requests: the 10 s timeout elapsed *)
| HTTPError (status : Z)       (* raise_for_status *)
| JSONDecodeError.             (* Response.json *)

(** What [requests.post] meets: no answer, or a response with its status
    code and its body decoded as JSON ([None] when it is not JSON). *)
Inductive transport : Type :=
| NetworkDown
| TimedOut
| Response (status : Z) (json : option text).

(** The environment of one run. *)
Record env : Type :=
  { goto_ok : bool;                  (* does page.goto succeed *)
    dom_at : nat -> document;        (* the page at the n-th evaluate *)
    post_answer : transport }.       (* what the Telegram call meets *)

Record alert_message : Type :=
  { msg_diff : text;                 (* {diff:.2f} *)
    msg_first : float;
    msg_second : float;
    msg_threshold : float;
    msg_source : string }.

(** Lines written to standard output. *)
Inductive line : Type :=
| Scraping (url : string)
| FewerThanTwo
| RawHeader
| RawRow (i : nat) (row_text apy_text : text)
| Found (apy1 apy2 : float) (diff : text)
| AlertSent
| NoAlert
| SendFailed (e : exn).

Inductive event : Type :=
| DriverStart
| Launch
| NewPage
| Goto (url : string) (timeout_ms : Z)
| WaitForLoadState (state : string)
| WaitForTimeout (ms : Z)
| Evaluate
| BrowserClose
| DriverStop
| Post (chat_id : string) (message : alert_message)
| Stdout (l : line).

Record world : Type :=
  { driver_running : bool;
    browser_open : bool;
    evaluations : nat;
    trace : list event }.

Definition initial : world :=
  {| driver_running := false; browser_open := false;
     evaluations := 0; trace := [] |}.

Inductive outcome (A : Type) : Type :=
| Returned (a : A)
| Raised (e : exn).
Arguments Raised {A} e.

Definition M (A : Type) : Type := world -> outcome A * world.

Definition ret {A} (a : A) : M A := fun w => (Returned a, w).

Definition raise {A} (e : exn) : M A := fun w => (Raised e, w).

Definition bind {A B} (m : M A) (k : A -> M B) : M B :=
  fun w =>
    match m w with
    | (Returned a, w') => k a w'
    | (Raised e, w') => (Raised e, w')
    end.

(** [try: body / except Exception as e: handler e] *)
Definition try_except {A} (body : M A) (handler : exn -> M A) : M A :=
  fun w =>
    match body w with
    | (Returned a, w') => (Returned a, w')
    | (Raised e, w') => handler e w'
    end.

Definition emit (ev : event) : M unit :=
  fun w =>
    (Returned tt,
     {| driver_running := driver_running w;
        browser_open := browser_open w;
        evaluations := evaluations w;
        trace := trace w ++ [ev] |}).

Definition print (l : line) : M unit := emit (Stdout l).

End Runtime.

Import Runtime.

Declare Scope monad_scope.
Delimit Scope monad_scope with monad.
Notation "x <- m ;; k" := (bind m (fun x => k))
  (at level 61, m at next level, right associativity) : monad_scope.
Notation "m ;; k" := (bind m (fun _ => k))
  (at level 61, right associativity) : monad_scope.
Open Scope monad_scope.

(** ** Playwright *)

Module Playwright.

Definition set_browser (b : bool) : M unit :=
  fun w =>
    (Returned tt,
     {| driver_running := driver_running w;
        browser_open := b;
        evaluations := evaluations w;
        trace := trace w |}).

Definition set_driver (b : bool) : M unit :=
  fun w =>
    (Returned tt,
     {| driver_running := b;
        browser_open := browser_open w;
        evaluations := evaluations w;
        trace := trace w |}).

(** [p.chromium.launch(headless=True)] *)
Definition launch : M unit := emit Launch ;; set_browser true.

(** [browser.new_page()] *)
Definition new_page : M unit := emit NewPage.

(** [page.goto(url, timeout=...)] *)
Definition goto (e : env) (url : string) (timeout_ms : Z) : M unit :=
  emit (Goto url timeout_ms) ;;
  if goto_ok e then ret tt else raise NavigationError.

(** [page.wait_for_load_state(state)] *)
Definition wait_for_load_state (state : string) : M unit :=
  emit (WaitForLoadState state).

(** [page.wait_for_timeout(ms)] *)
Definition wait_for_timeout (ms : Z) : M unit :=
  emit (WaitForTimeout ms).

(** [page.evaluate(script)] with the script of the source: it runs
    against the page as it is now. *)
Definition page_evaluate (e : env) : M (list extracted_row) :=
  emit Evaluate ;;
  fun w =>
    (Returned (page_script (dom_at e (evaluations w))),
     {| driver_running := driver_running w;
        browser_open := browser_open w;
        evaluations := S (evaluations w);
        trace := trace w |}).

(** [browser.close()] *)
Definition browser_close : M unit := emit BrowserClose ;; set_browser false.

(** [async with async_playwright() as p: body].  Leaving the block, by a
    return or by an exception, stops the Playwright driver, and with it
    every browser it launched; the outcome of the body is passed on. *)
Definition with_playwright {A} (body : M A) : M A :=
  fun w =>
    let '(r, w1) := (emit DriverStart ;; set_driver true ;; body) w in
    let '(_, w2) :=
      (emit DriverStop ;; set_browser false ;; set_driver false) w1 in
    (r, w2).

End Playwright.

Import Playwright.

(** ** The retrying fetch: [scrape_xsol_apys] *)

Module Scrape.

Section WithEnv.
Variable cfg : config.
Variable e : env.

(** [int(BASE_WAIT_SECONDS * 1000 * (1 + attempt))] *)
Definition wait_ms (attempt : Z) : Z :=
  (BASE_WAIT_SECONDS cfg * 1000 * (1 + attempt))%Z.

(** The [while attempt < MAX_ATTEMPTS] loop and what follows it.
    [remaining] is [MAX_ATTEMPTS - attempt], so the loop condition holds
    exactly when it is a successor.  [raw] is the local variable of
    that name: [None] while it is unbound. *)
Fixpoint attempts (remaining : nat) (attempt : Z)
         (raw : option (list extracted_row))
  : M (list float * list extracted_row) :=
  match remaining with
  | S remaining' =>
      wait_for_load_state "networkidle" ;;
      wait_for_timeout (wait_ms attempt) ;;
      raw' <- page_evaluate e ;;
      let (apys, debug) := parse_rows raw' in
      if (2 <=? length apys)%nat
      then browser_close ;; ret (apys, raw')
      else attempts remaining' (attempt + 1)%Z (Some raw')
  | O =>
      browser_close ;;
      match raw with
      | Some r => ret ([], r)
      | None => raise (UnboundLocalError "raw")
      end
  end.

Definition scrape_xsol_apys : M (list float * list extracted_row) :=
  with_playwright
    (launch ;;
     new_page ;;
     goto e URL 60000 ;;
     attempts (Z.to_nat (MAX_ATTEMPTS cfg)) 0%Z None).

End WithEnv.

End Scrape.

Import Scrape.

(** ** The notifier: [send_telegram_message] *)

Module Notify.

Section WithEnv.
Variable e : env.

(** [requests.post(url, json=payload, timeout=10)]: a network failure
    or an elapsed timeout raises, any response is returned. *)
Definition requests_post (message : alert_message)
  : M (Z * option text) :=
  emit (Post CHAT_ID message) ;;
  match post_answer e with
  | NetworkDown => raise ConnectionError
  | TimedOut => raise ReadTimeout
  | Response status json => ret (status, json)
  end.

(** [r.raise_for_status()]: [HTTPError] for the client and server
    error codes, 400 to 599, and nothing for any other code. *)
Definition raise_for_status (r : Z * option text) : M unit :=
  let status := fst r in
  if (400 <=? status)%Z && (status <? 600)%Z
  then raise (HTTPError status)
  else ret tt.

(** [r.json()] *)
Definition response_json (r : Z * option text) : M text :=
  match snd r with
  | Some j => ret j
  | None => raise JSONDecodeError
  end.

(** The result is the decoded answer, or Python's [None]. *)
Definition send_telegram_message (message : alert_message)
  : M (option text) :=
  try_except
    (r <- requests_post message ;;
     raise_for_status r ;;
     j <- response_json r ;;
     ret (Some j))
    (fun ex => print (SendFailed ex) ;; ret None).

End WithEnv.

End Notify.

Import Notify.

(** ** [main] *)

Module Main.

Section WithEnv.
Variable cfg : config.
Variable e : env.

(** [for i, item in enumerate(raw): print(...)] *)
Fixpoint print_raw (i : nat) (raw : list extracted_row) : M unit :=
  match raw with
  | item :: rest =>
      print (RawRow i (rowText item) (apyText item)) ;;
      print_raw (S i) rest
  | [] => ret tt
  end.

(** [main] from the result of the fetch on. *)
Definition report (apys : list float) (raw : list extracted_row)
  : M unit :=
  match apys with
  | [] =>
      print FewerThanTwo ;;
      print RawHeader ;;
      print_raw 0 raw
  | _ :: _ =>
      match evaluate apys (THRESHOLD cfg) with
      | None => raise IndexError
      | Some d =>
          let diff := format_2f (difference d) in
          print (Found (first d) (second d) diff) ;;
          if shouldAlert d
          then
            send_telegram_message e
              {| msg_diff := diff;
                 msg_first := first d;
                 msg_second := second d;
                 msg_threshold := THRESHOLD cfg;
                 msg_source := URL |} ;;
            print AlertSent
          else print NoAlert
      end
  end.

Definition main : M unit :=
  print (Scraping URL) ;;
  r <- scrape_xsol_apys cfg e ;;
  report (fst r) (snd r).

End WithEnv.

End Main.

Import Main.

(** ** Vocabulary of the statements *)

Module Terms.

(** What the [k]-th evaluation of a run returns, and what is parsed from
    it. *)
Definition attempt_raw (e : env) (k : nat) : list extracted_row :=
  page_script (dom_at e k).

Definition attempt_values (e : env) (k : nat) : list float :=
  values_of (attempt_raw e k).

(** The events of [n] rounds of the loop, the first with index
    [attempt]. *)
Fixpoint loop_events (cfg : config) (n : nat) (attempt : Z) : list event :=
  match n with
  | S n' =>
      [WaitForLoadState "networkidle";
       WaitForTimeout (wait_ms cfg attempt);
       Evaluate] ++ loop_events cfg n' (attempt + 1)%Z
  | O => []
  end.

Definition with_trace (w : world) (b : bool) (n : nat) (t : list event)
  : world :=
  {| driver_running := driver_running w;
     browser_open := b;
     evaluations := n;
     trace := t |}.

(** The world once the browser is up and the page reached, and the world
    once the [async with] block is left. *)
Definition started (w : world) : world :=
  {| driver_running := true;
     browser_open := true;
     evaluations := evaluations w;
     trace := trace w ++ [DriverStart; Launch; NewPage; Goto URL 60000] |}.

Definition stopped (w : world) : world :=
  {| driver_running := false;
     browser_open := false;
     evaluations := evaluations w;
     trace := trace w ++ [DriverStop] |}.

(** The entry the script emits for a row it keeps. *)
Definition emitted (r : element) : extracted_row :=
  {| rowText := row_text_of r; apyText := apy_text_of r |}.

(** The row's full text as the script reads it. *)
Definition full_text (r : element) : text := or_empty (innerText r).

(** [s] contains [label], letter case apart: some stretch of [s] equals
    [label] once both are put in lower case. *)
Definition contains_ci (label s : text) : Prop :=
  exists pre mid suf,
    s = pre ++ mid ++ suf /\ toLowerCase mid = toLowerCase label.

(** [t] is the text of the first descendant of [r], in document order,
    whose text holds a percent sign. *)
Definition first_percent_text (r : element) (t : text) : Prop :=
  exists before el after,
    descendants r = before ++ el :: after /\
    full_text el = t /\
    has_percent t = true /\
    forall b, In b before -> has_percent (full_text b) = false.

(** A run of characters that all pass [p]. *)
Definition run (p : ascii -> bool) (m : text) : Prop := forallb p m = true.

(** A decimal fraction: a point and at least one digit. *)
Definition fraction (frac : text) : Prop :=
  exists fs, frac = "."%char :: fs /\ fs <> [] /\ run is_digit fs.

(** The token of the regular expression at the head of [s]: an optional
    minus sign, digits, an optional fraction, optional white space and a
    percent sign; [g] is the number, sign included. *)
Definition pct_token (g s : text) : Prop :=
  exists sign ds frac ws rest,
    s = sign ++ ds ++ frac ++ ws ++ "%"%char :: rest /\
    (sign = [] \/ sign = ["-"%char]) /\
    ds <> [] /\ run is_digit ds /\
    (frac = [] \/ fraction frac) /\
    run py_space ws /\
    g = sign ++ ds ++ frac.

(** [g] is the number of the first token of [s], from the left. *)
Definition first_token (s g : text) : Prop :=
  exists pre suf,
    s = pre ++ suf /\ pct_token g suf /\
    forall pre' suf' g',
      s = pre' ++ suf' -> length pre' < length pre -> ~ pct_token g' suf'.

(** [v] is the binary64 number nearest to the decimal number written
    [g]. *)
Definition number_value (g : text) (v : float) : Prop :=
  exists (neg : bool) (ds fs : text),
    g = (if neg then ["-"%char] else [])
          ++ ds ++ match fs with [] => [] | _ :: _ => "."%char :: fs end /\
    ds <> [] /\ run is_digit ds /\ run is_digit fs /\
    v = round_decimal neg (digits_val (ds ++ fs)) (length fs).

(** The token as the claim words it, at the head of [s]: an optional sign,
    digits, an optional fraction and, next to them, a percent sign. *)
Definition claimed_token (s : text) : Prop :=
  exists sign ds frac rest,
    s = sign ++ ds ++ frac ++ "%"%char :: rest /\
    (sign = [] \/ sign = ["-"%char] \/ sign = ["+"%char]) /\
    ds <> [] /\ run is_digit ds /\
    (frac = [] \/ fraction frac).

(** The next character, if any, does not pass [p]. *)
Definition stops (p : ascii -> bool) (r : text) : Prop :=
  match r with
  | c :: _ => p c = false
  | [] => True
  end.

(** Does a digit stand right before some percent sign of [s]? *)
Fixpoint digit_then_percent (s : text) : bool :=
  match s with
  | c :: (d :: _) as r =>
      (is_digit c && Ascii.eqb d "%") || digit_then_percent r
  | _ => false
  end.

(** The rest of the pattern once the number [g] is read: [\s*%]. *)
Definition percent_after (g r : text) : option text :=
  lit "%" (drop_while py_space r) (fun _ => Some g).

(** The number and what follows, read without backtracking. *)
Definition number_direct (sign r1 : text) : option text :=
  match take_while is_digit r1 with
  | [] => None
  | ds =>
      let r2 := drop_while is_digit r1 in
      orelse
        (lit "." r2 (fun r3 =>
           match take_while is_digit r3 with
           | [] => None
           | fs =>
               percent_after (sign ++ ds ++ "."%char :: fs)
                             (drop_while is_digit r3)
           end))
        (percent_after (sign ++ ds ++ []) r2)
  end.

(** What one extracted row contributes to the values: the first
    percentage of [apyText], or else the first percentage of [rowText]. *)
Definition row_value (item : extracted_row) : option float :=
  match parse_percent (apyText item) with
  | Some v => Some v
  | None => parse_percent (rowText item)
  end.

Definition option_list {A} (o : option A) : list A :=
  match o with
  | Some a => [a]
  | None => []
  end.

Definition is_none {A} (o : option A) : bool :=
  match o with
  | Some _ => false
  | None => true
  end.

Definition debug_of (item : extracted_row) : debug_entry :=
  {| dbg_rowText := rowText item; dbg_apyText := apyText item |}.

(** Some token of the regular expression occurs in [s]. *)
Definition has_token (s : text) : Prop :=
  exists pre suf g, s = pre ++ suf /\ pct_token g suf.

(** The milliseconds of the timed waits of a trace, summed. *)
Fixpoint total_wait (t : list event) : Z :=
  match t with
  | WaitForTimeout ms :: r => (ms + total_wait r)%Z
  | _ :: r => total_wait r
  | [] => 0%Z
  end.

Definition is_post (ev : event) : bool :=
  match ev with
  | Post _ _ => true
  | _ => false
  end.

(** The HTTP requests of a trace. *)
Definition posts (t : list event) : list event := filter is_post t.

(** The diagnostic lines of [main] for the raw rows, numbered from [i]. *)
Fixpoint raw_lines (i : nat) (raw : list extracted_row) : list event :=
  match raw with
  | item :: rest =>
      Stdout (RawRow i (rowText item) (apyText item))
      :: raw_lines (S i) rest
  | [] => []
  end.

(** The exception a transport outcome turns into inside
    [send_telegram_message], if any. *)
Definition failure_of (t : transport) : option exn :=
  match t with
  | NetworkDown => Some ConnectionError
  | TimedOut => Some ReadTimeout
  | Response status json =>
      if (400 <=? status)%Z && (status <? 600)%Z
      then Some (HTTPError status)
      else match json with
           | Some _ => None
           | None => Some JSONDecodeError
           end
  end.

(** The message [main] sends for the values [apy1] and [apy2]. *)
Definition alert_of (cfg : config) (apy1 apy2 : float) : alert_message :=
  {| msg_diff := format_2f (abs (apy1 - apy2)%float);
     msg_first := apy1;
     msg_second := apy2;
     msg_threshold := THRESHOLD cfg;
     msg_source := URL |}.

(** The world once [main] has printed its first line. *)
Definition announced (w : world) : world :=
  with_trace w (browser_open w) (evaluations w)
             (trace w ++ [Stdout (Scraping URL)]).

(** The rows of a page that mention the label. *)
Definition label_rows (d : document) : list element :=
  filter (fun r => mentions_xsol (row_text_of r))
         (document_querySelectorAll (Tag "tr") d).

(** No white space of ECMAScript at either end. *)
Definition trimmed (s : text) : Prop :=
  stops js_space s /\ stops js_space (rev s).

(** A character that can stand inside a token after its first one. *)
Definition inner_char (c : ascii) : bool :=
  is_digit c || Ascii.eqb c "." || py_space c.

End Terms.

Import Terms.

(** ** Sample pages and environments *)

Module Samples.

Definition el (tag : string) (inner : string) (cs : list element)
  : element :=
  Element tag (Some (txt inner)) cs.

(** A table with one xSOL row that shows one percentage. *)
Definition page_one : document :=
  el "table" "xSOL 5%"
     [el "tr" "xSOL 5%" [el "td" "xSOL" []; el "td" "5%" []]].

(** A table with two xSOL rows, APY in the fourth cell. *)
Definition page_two : document :=
  el "table" "xSOL-A 1 2 44.80% xSOL-B 1 2 41.50%"
     [el "tr" "xSOL-A 1 2 44.80%"
         [el "td" "xSOL-A" []; el "td" "1" []; el "td" "2" [];
          el "td" "44.80%" []];
      el "tr" "xSOL-B 1 2 41.50%"
         [el "td" "xSOL-B" []; el "td" "1" []; el "td" "2" [];
          el "td" "41.50%" []]].

(** The page never shows more than one value. *)
Definition env_one : env :=
  {| goto_ok := true;
     dom_at := fun _ => page_one;
     post_answer := Response 200 (Some (txt "{}")) |}.

(** The second value appears between the first and the second
    evaluation. *)
Definition env_late : env :=
  {| goto_ok := true;
     dom_at := fun n => match n with O => page_one | S _ => page_two end;
     post_answer := Response 200 (Some (txt "{}")) |}.

Definition cfg_no_attempt : config :=
  {| MAX_ATTEMPTS := 0; BASE_WAIT_SECONDS := 2; THRESHOLD := 3 |}.

(** The Telegram endpoint answers 500 with a body that is not JSON. *)
Definition env_http500 : env :=
  {| goto_ok := true;
     dom_at := fun _ => page_two;
     post_answer := Response 500 None |}.

(** The endpoint answers 302 without a [Location] header, so that
    [requests] hands the response over as it is, and with a JSON body. *)
Definition env_http302 : env :=
  {| goto_ok := true;
     dom_at := fun _ => page_two;
     post_answer := Response 302 (Some (txt "{}")) |}.

(** Four cells, the fourth reading "n/a", and a badge nested in a fifth
    cell that reads "12.5%". *)
Definition row_with_badge : element :=
  el "tr" "xSOL a b n/a 12.5%"
     [el "td" "xSOL" []; el "td" "a" []; el "td" "b" [];
      el "td" "n/a" [];
      el "td" "12.5%" [el "span" "12.5%" []]].

(** Four cells, the fourth reading "n/a", and no percent sign anywhere. *)
Definition row_without_percent : element :=
  el "tr" "xSOL a b n/a"
     [el "td" "xSOL" []; el "td" "a" []; el "td" "b" [];
      el "td" "n/a" []].

(** Three rows: the label in another letter case, no label but a
    percentage in a cell, and the label alone between blanks. *)
Definition page_mixed : document :=
  el "table" "Pool XSol-1 4.2% jitoSOL 7.5% xsol"
     [el "tr" "Pool XSol-1 4.2%"
         [el "td" "Pool XSol-1" []; el "td" "4.2%" []];
      el "tr" "jitoSOL 7.5%"
         [el "td" "jitoSOL" []; el "td" "7.5%" []];
      el "tr" "  xsol  " []].

Definition sample_message : alert_message :=
  {| msg_diff := txt "3.30";
     msg_first := 0x1.6666666666666p+5;
     msg_second := 0x1.4cp+5;
     msg_threshold := 3;
     msg_source := URL |}.

End Samples.

Import Samples.

(** * Properties *)

(** ** The loop of the retrying fetch *)

Section Loop.
Variable cfg : config.
Variable e : env.

Lemma loop_events_snoc (n : nat) (a : Z) :
  loop_events cfg (S n) a =
  loop_events cfg n a ++
    [WaitForLoadState "networkidle";
     WaitForTimeout (wait_ms cfg (a + Z.of_nat n));
     Evaluate].
Proof.
  revert a; induction n as [|n IH]; intro a.
  - simpl. now rewrite Z.add_0_r.
  - change (loop_events cfg (S (S n)) a)
      with ([WaitForLoadState "networkidle";
             WaitForTimeout (wait_ms cfg a); Evaluate]
              ++ loop_events cfg (S n) (a + 1)%Z).
    rewrite IH. simpl.
    replace (a + 1 + Z.of_nat n)%Z with (a + Z.of_nat (S n))%Z by lia.
    reflexivity.
Qed.

(** One round of the loop. *)
Lemma attempts_step (n : nat) (a : Z) (raw : option (list extracted_row))
      (w : world) :
  attempts cfg e (S n) a raw w =
  let raw' := page_script (dom_at e (evaluations w)) in
  let t := trace w ++ loop_events cfg 1 a in
  if (2 <=? length (values_of raw'))%nat
  then (Returned (values_of raw', raw'),
        with_trace w false (S (evaluations w)) (t ++ [BrowserClose]))
  else attempts cfg e n (a + 1)%Z (Some raw')
                (with_trace w (browser_open w) (S (evaluations w)) t).
Proof.
  cbn [attempts]. unfold values_of.
  unfold bind, wait_for_load_state, wait_for_timeout, page_evaluate,
    browser_close, set_browser, emit, ret, bind, with_trace.
  cbn -[Nat.leb parse_rows].
  destruct (parse_rows (page_script (dom_at e (evaluations w))))
    as [apys debug].
  cbn -[Nat.leb].
  destruct (2 <=? length apys)%nat; cbn;
    repeat rewrite <- app_assoc; reflexivity.
Qed.

(** The loop left by exhaustion. *)
Lemma attempts_done (raw : option (list extracted_row)) (a : Z)
      (w : world) :
  attempts cfg e 0 a raw w =
  (match raw with
   | Some r => Returned ([], r)
   | None => Raised (UnboundLocalError "raw")
   end,
   with_trace w false (evaluations w) (trace w ++ [BrowserClose])).
Proof.
  cbn [attempts].
  unfold bind, browser_close, set_browser, emit, ret, raise, with_trace.
  cbn. destruct raw; reflexivity.
Qed.

(** Every round short of two values: the loop runs [n] rounds, closes the
    browser and answers the empty list with the last [raw]. *)
Lemma attempts_exhausted (n : nat) :
  forall (a : Z) (raw : option (list extracted_row)) (w : world),
    (forall k, k < n ->
               length (attempt_values e (evaluations w + k)) < 2) ->
    attempts cfg e n a raw w =
    (match n with
     | O => match raw with
            | Some r => Returned ([], r)
            | None => Raised (UnboundLocalError "raw")
            end
     | S n' => Returned ([], attempt_raw e (evaluations w + n'))
     end,
     with_trace w false (evaluations w + n)
                (trace w ++ loop_events cfg n a ++ [BrowserClose])).
Proof.
  induction n as [|n IH]; intros a raw w Hshort.
  - rewrite attempts_done. now rewrite Nat.add_0_r.
  - rewrite attempts_step. cbv zeta.
    assert (H0 : length (attempt_values e (evaluations w + 0)) < 2)
      by (apply Hshort; lia).
    rewrite Nat.add_0_r in H0. unfold attempt_values, attempt_raw in H0.
    destruct (Nat.leb_spec 2
                (length (values_of (page_script (dom_at e (evaluations w))))))
      as [Hge|_]; [lia|].
    rewrite IH.
    + unfold with_trace;
        cbn [driver_running browser_open evaluations trace].
      rewrite <- Nat.add_succ_comm, <- app_assoc.
      f_equal. destruct n as [|n'].
      * now rewrite Nat.add_0_r.
      * now rewrite Nat.add_succ_comm.
    + intros k Hk. cbn [evaluations with_trace].
      replace (S (evaluations w) + k) with (evaluations w + S k) by lia.
      apply Hshort. lia.
Qed.

(** Round [k] is the first with two values or more: the loop stops
    there. *)
Lemma attempts_success (k : nat) :
  forall (n : nat) (a : Z) (raw : option (list extracted_row)) (w : world),
    k < n ->
    (forall j, j < k ->
               length (attempt_values e (evaluations w + j)) < 2) ->
    2 <= length (attempt_values e (evaluations w + k)) ->
    attempts cfg e n a raw w =
    (Returned (attempt_values e (evaluations w + k),
               attempt_raw e (evaluations w + k)),
     with_trace w false (S (evaluations w + k))
                (trace w ++ loop_events cfg (S k) a ++ [BrowserClose])).
Proof.
  induction k as [|k IH]; intros n a raw w Hlt Hshort Hok.
  - destruct n as [|n]; [lia|].
    rewrite attempts_step. cbv zeta.
    rewrite Nat.add_0_r in *. unfold attempt_values, attempt_raw in *.
    destruct (Nat.leb_spec 2
                (length (values_of (page_script (dom_at e (evaluations w))))))
      as [_|Hlt2]; [|lia].
    rewrite <- app_assoc. reflexivity.
  - destruct n as [|n]; [lia|].
    rewrite attempts_step. cbv zeta.
    assert (H0 : length (attempt_values e (evaluations w + 0)) < 2)
      by (apply Hshort; lia).
    rewrite Nat.add_0_r in H0. unfold attempt_values, attempt_raw in H0.
    destruct (Nat.leb_spec 2
                (length (values_of (page_script (dom_at e (evaluations w))))))
      as [Hge|_]; [lia|].
    rewrite (IH n).
    + unfold with_trace;
        cbn [driver_running browser_open evaluations trace].
      rewrite <- Nat.add_succ_comm, <- app_assoc. reflexivity.
    + lia.
    + intros j Hj. cbn [evaluations with_trace].
      replace (S (evaluations w) + j) with (evaluations w + S j) by lia.
      apply Hshort. lia.
    + cbn [evaluations with_trace].
      replace (S (evaluations w) + k) with (evaluations w + S k) by lia.
      exact Hok.
Qed.

End Loop.

(** ** The retrying fetch as a whole *)

Section Fetch.
Variable cfg : config.
Variable e : env.

Lemma scrape_unfold (w : world) :
  scrape_xsol_apys cfg e w =
  if goto_ok e
  then
    let r :=
      attempts cfg e (Z.to_nat (MAX_ATTEMPTS cfg)) 0%Z None (started w) in
    (fst r, stopped (snd r))
  else (Raised NavigationError, stopped (started w)).
Proof.
  unfold scrape_xsol_apys, with_playwright, launch, new_page, goto,
    set_driver, set_browser, bind, emit, ret, raise, started, stopped.
  cbn -[attempts Z.to_nat].
  repeat rewrite <- app_assoc. cbn -[attempts Z.to_nat].
  destruct (goto_ok e).
  - destruct (attempts cfg e (Z.to_nat (MAX_ATTEMPTS cfg)) 0%Z None _)
      as [r w1]. reflexivity.
  - cbn. now rewrite <- app_assoc.
Qed.

(** What the loop returns is empty or has two values at least. *)
Lemma attempts_values_shape (n : nat) :
  forall (a : Z) (raw : option (list extracted_row)) (w : world),
    match fst (attempts cfg e n a raw w) with
    | Returned r => fst r = [] \/ 2 <= length (fst r)
    | Raised ex => ex = UnboundLocalError "raw"
    end.
Proof.
  induction n as [|n IH]; intros a raw w.
  - rewrite attempts_done. destruct raw; cbn; auto.
  - rewrite attempts_step. cbv zeta.
    destruct (Nat.leb_spec 2
                (length (values_of (page_script (dom_at e (evaluations w))))))
      as [Hge|_].
    + cbn. now right.
    + apply IH.
Qed.

(** The browser is closed by the loop itself whenever it ends. *)
Lemma attempts_close (n : nat) :
  forall (a : Z) (raw : option (list extracted_row)) (w : world),
  exists t,
    trace (snd (attempts cfg e n a raw w)) = trace w ++ t ++ [BrowserClose].
Proof.
  induction n as [|n IH]; intros a raw w.
  - rewrite attempts_done. exists []. reflexivity.
  - rewrite attempts_step. cbv zeta.
    destruct (2 <=? length _)%nat.
    + exists (loop_events cfg 1 a). cbn. now rewrite <- app_assoc.
    + destruct (IH (a + 1)%Z
                   (Some (page_script (dom_at e (evaluations w))))
                   (with_trace w (browser_open w) (S (evaluations w))
                               (trace w ++ loop_events cfg 1 a)))
        as [t Ht].
      exists (loop_events cfg 1 a ++ t). rewrite Ht. cbn.
      now rewrite <- app_assoc.
Qed.

End Fetch.

(** The least index at which a test succeeds. *)
Lemma first_hit (f : nat -> bool) (k : nat) :
  f k = true ->
  exists k0, k0 <= k /\ f k0 = true /\ forall j, j < k0 -> f j = false.
Proof.
  induction k as [k IH] using lt_wf_ind. intro Hk.
  destruct (existsb f (seq 0 k)) eqn:Hex.
  - apply existsb_exists in Hex. destruct Hex as [j [Hin Hj]].
    apply in_seq in Hin.
    destruct (IH j ltac:(lia) Hj) as [k0 [Hle [Hk0 Hmin]]].
    exists k0. repeat split; auto. lia.
  - exists k. repeat split; auto. intros j Hj.
    destruct (f j) eqn:Hfj; [|reflexivity].
    assert (existsb f (seq 0 k) = true) as Habs.
    { apply existsb_exists. exists j. split; [apply in_seq; lia|exact Hfj]. }
    congruence.
Qed.

(** ** The notifier and [main] return *)

Section Returns.
Variable cfg : config.
Variable e : env.

Lemma send_telegram_message_unfold (message : alert_message) (w : world) :
  send_telegram_message e message w =
  let w1 := with_trace w (browser_open w) (evaluations w)
                       (trace w ++ [Post CHAT_ID message]) in
  let failed ex :=
    (Returned None,
     with_trace w (browser_open w) (evaluations w)
                (trace w ++ [Post CHAT_ID message; Stdout (SendFailed ex)]))
  in
  match post_answer e with
  | NetworkDown => failed ConnectionError
  | TimedOut => failed ReadTimeout
  | Response status json =>
      if (400 <=? status)%Z && (status <? 600)%Z
      then failed (HTTPError status)
      else match json with
           | Some j => (Returned (Some j), w1)
           | None => failed JSONDecodeError
           end
  end.
Proof.
  unfold send_telegram_message, try_except, requests_post, raise_for_status,
    response_json, print, bind, emit, ret, raise, with_trace.
  cbn -[Z.leb Z.ltb].
  destruct (post_answer e) as [| |status json];
    cbn -[Z.leb Z.ltb]; repeat rewrite <- app_assoc; try reflexivity.
  destruct ((400 <=? status)%Z && (status <? 600)%Z);
    cbn; repeat rewrite <- app_assoc; try reflexivity.
  destruct json; cbn; repeat rewrite <- app_assoc; reflexivity.
Qed.

Lemma send_telegram_message_returns (message : alert_message) (w : world) :
  exists r, fst (send_telegram_message e message w) = Returned r.
Proof.
  rewrite send_telegram_message_unfold. cbv zeta.
  destruct (post_answer e) as [| |status json]; try (eexists; reflexivity).
  destruct ((400 <=? status)%Z && (status <? 600)%Z);
    [eexists; reflexivity|].
  destruct json; eexists; reflexivity.
Qed.

Lemma print_raw_returns (raw : list extracted_row) :
  forall (i : nat) (w : world), fst (print_raw i raw w) = Returned tt.
Proof.
  induction raw as [|item rest IH]; intros i w.
  - reflexivity.
  - cbn [print_raw]. unfold bind, print, emit at 1. cbn. apply IH.
Qed.

(** With no value or with two at least, the rest of [main] returns. *)
Lemma report_returns (apys : list float) (raw : list extracted_row)
      (w : world) :
  length apys <> 1 -> fst (report cfg e apys raw w) = Returned tt.
Proof.
  intro Hlen. destruct apys as [|apy1 [|apy2 rest]].
  - unfold report, bind, print, emit at 1 2. cbn. apply print_raw_returns.
  - now elim Hlen.
  - unfold report, evaluate.
    cbv beta iota zeta.
    cbn [first second difference shouldAlert].
    unfold bind at 1, print at 1, emit at 1. cbv beta iota.
    destruct (THRESHOLD cfg <=? abs (apy1 - apy2))%float.
    + unfold bind.
      match goal with
      | |- context [send_telegram_message e ?m ?w0] =>
          destruct (send_telegram_message_returns m w0) as [r Hr];
          destruct (send_telegram_message e m w0) as [o w1]
      end.
      cbn in Hr. subst o. reflexivity.
    + reflexivity.
Qed.

(** A list of one value makes [apys[1]] fail. *)
Lemma report_single (x : float) (raw : list extracted_row) (w : world) :
  report cfg e [x] raw w = (Raised IndexError, w).
Proof. reflexivity. Qed.

Lemma main_unfold (w : world) :
  main cfg e w =
  let w0 := with_trace w (browser_open w) (evaluations w)
                       (trace w ++ [Stdout (Scraping URL)]) in
  match scrape_xsol_apys cfg e w0 with
  | (Returned r, w1) => report cfg e (fst r) (snd r) w1
  | (Raised ex, w1) => (Raised ex, w1)
  end.
Proof. reflexivity. Qed.

End Returns.

(** ** Claims on the retrying fetch *)

(** C1, as stated, fails: with four attempts that each parse one value, the
    fetch does not return the last attempt's values [[5.0]] but the empty
    list. *)
Lemma C1_last_values_are_dropped :
  (forall k, (Z.of_nat k < MAX_ATTEMPTS source_config)%Z ->
             length (attempt_values env_one k) < 2) /\
  attempt_values env_one 3 = [5%float] /\
  fst (scrape_xsol_apys source_config env_one initial)
  = Returned ([], attempt_raw env_one 3) /\
  fst (scrape_xsol_apys source_config env_one initial)
  <> Returned (attempt_values env_one 3, attempt_raw env_one 3).
Proof.
  split; [|split; [|split]].
  - intros k _. vm_compute. apply le_n.
  - vm_compute. reflexivity.
  - vm_compute. reflexivity.
  - vm_compute. intro H. discriminate H.
Qed.

(** C1, amended: when every attempt up to [MAX_ATTEMPTS] (at least 1)
    parses fewer than two values, the fetch returns normally the empty list
    of values together with the raw rows of the last attempt. *)
Theorem C1_exhaustion_returns_empty_and_last_raw
        (cfg : config) (e : env) (w : world) :
  goto_ok e = true ->
  (1 <= MAX_ATTEMPTS cfg)%Z ->
  (forall k, (Z.of_nat k < MAX_ATTEMPTS cfg)%Z ->
             length (attempt_values e (evaluations w + k)) < 2) ->
  fst (scrape_xsol_apys cfg e w)
  = Returned ([], attempt_raw e (evaluations w
                                 + (Z.to_nat (MAX_ATTEMPTS cfg) - 1))).
Proof.
  intros Hgo Hmax Hshort.
  rewrite scrape_unfold, Hgo. cbv zeta. cbn [fst].
  rewrite attempts_exhausted.
  - destruct (Z.to_nat (MAX_ATTEMPTS cfg)) as [|n'] eqn:Hn; [lia|].
    cbn [fst started evaluations]. now rewrite Nat.sub_succ, Nat.sub_0_r.
  - intros k Hk. cbn [started evaluations]. apply Hshort. lia.
Qed.

(** The page that never shows more than one value, under the constants of
    the source. *)
Lemma C1_exhaustion_witness :
  fst (scrape_xsol_apys source_config env_one initial)
  = Returned ([], attempt_raw env_one
                    (evaluations initial
                     + (Z.to_nat (MAX_ATTEMPTS source_config) - 1))).
Proof.
  apply (C1_exhaustion_returns_empty_and_last_raw source_config env_one
                                                    initial).
  - reflexivity.
  - vm_compute. intro H. discriminate H.
  - intros k _. vm_compute. apply le_n.
Defined.

(** C7: when some attempt within [MAX_ATTEMPTS] parses two values or more,
    the loop ends at the first such attempt [k0]: the fetch returns that
    attempt's values and raw rows, and the run has waited and evaluated
    [k0 + 1] times and no more before closing the browser. *)
Theorem C7_first_success_stops_the_loop
        (cfg : config) (e : env) (w : world) (k : nat) :
  goto_ok e = true ->
  (Z.of_nat k < MAX_ATTEMPTS cfg)%Z ->
  2 <= length (attempt_values e (evaluations w + k)) ->
  exists k0,
    k0 <= k /\
    2 <= length (attempt_values e (evaluations w + k0)) /\
    (forall j, j < k0 ->
               length (attempt_values e (evaluations w + j)) < 2) /\
    scrape_xsol_apys cfg e w
    = (Returned (attempt_values e (evaluations w + k0),
                 attempt_raw e (evaluations w + k0)),
       {| driver_running := false;
          browser_open := false;
          evaluations := S (evaluations w + k0);
          trace := trace w
                   ++ [DriverStart; Launch; NewPage; Goto URL 60000]
                   ++ loop_events cfg (S k0) 0
                   ++ [BrowserClose; DriverStop] |}).
Proof.
  intros Hgo Hk Hok.
  destruct (first_hit
              (fun j => (2 <=? length (attempt_values e (evaluations w + j)))%nat)
              k) as [k0 [Hle [Hk0 Hmin]]].
  { now apply Nat.leb_le. }
  apply Nat.leb_le in Hk0.
  assert (Hshort : forall j, j < k0 ->
                     length (attempt_values e (evaluations w + j)) < 2).
  { intros j Hj. specialize (Hmin j Hj). apply Nat.leb_gt in Hmin. exact Hmin. }
  exists k0. repeat split; auto.
  rewrite scrape_unfold, Hgo. cbv zeta.
  rewrite (@attempts_success cfg e k0); cbn [started evaluations]; auto.
  - cbn [fst snd]. unfold stopped, with_trace, started.
    cbn [driver_running browser_open evaluations trace].
    repeat rewrite <- app_assoc. reflexivity.
  - lia.
Qed.

(** One value at the first evaluation, two at the second. *)
Lemma C7_first_success_witness :
  exists k0,
    k0 <= 1 /\
    2 <= length (attempt_values env_late (evaluations initial + k0)) /\
    (forall j, j < k0 ->
               length (attempt_values env_late (evaluations initial + j)) < 2)
    /\
    scrape_xsol_apys source_config env_late initial
    = (Returned (attempt_values env_late (evaluations initial + k0),
                 attempt_raw env_late (evaluations initial + k0)),
       {| driver_running := false;
          browser_open := false;
          evaluations := S (evaluations initial + k0);
          trace := trace initial
                   ++ [DriverStart; Launch; NewPage; Goto URL 60000]
                   ++ loop_events source_config (S k0) 0
                   ++ [BrowserClose; DriverStop] |}).
Proof.
  apply (C7_first_success_stops_the_loop source_config env_late initial 1).
  - reflexivity.
  - reflexivity.
  - vm_compute. apply le_n.
Defined.

(** What the fetch returns is empty or has two values at least, and it
    raises nothing but its own two errors. *)
Lemma scrape_shape (cfg : config) (e : env) (w : world) :
  match fst (scrape_xsol_apys cfg e w) with
  | Returned r => fst r = [] \/ 2 <= length (fst r)
  | Raised ex => ex = NavigationError \/ ex = UnboundLocalError "raw"
  end.
Proof.
  rewrite scrape_unfold. destruct (goto_ok e); cbn [fst].
  - pose proof (attempts_values_shape cfg e (Z.to_nat (MAX_ATTEMPTS cfg))
                                      0%Z None (started w)) as H.
    destruct (fst (attempts cfg e (Z.to_nat (MAX_ATTEMPTS cfg)) 0%Z None
                            (started w))) as [r|ex]; auto.
  - now left.
Qed.

(** C9: the list of values the fetch returns is empty or has two elements
    at least, never exactly one; so [main], which only tests the list for
    emptiness, never fails on [apys[0]] or [apys[1]] -- as it would on a
    list of one. *)
Theorem C9_returned_values_never_single (cfg : config) (e : env) (w : world) :
  match fst (scrape_xsol_apys cfg e w) with
  | Returned r => length (fst r) <> 1 /\ (fst r = [] \/ 2 <= length (fst r))
  | Raised _ => True
  end /\
  fst (main cfg e w) <> Raised IndexError /\
  (forall x raw w', fst (report cfg e [x] raw w') = Raised IndexError).
Proof.
  assert (Hshape :
            forall w0, match fst (scrape_xsol_apys cfg e w0) with
                       | Returned r => fst r = [] \/ 2 <= length (fst r)
                       | Raised ex => ex <> IndexError
                       end).
  { intro w0. rewrite scrape_unfold. destruct (goto_ok e); cbn [fst].
    - pose proof (attempts_values_shape cfg e (Z.to_nat (MAX_ATTEMPTS cfg))
                                        0%Z None (started w0)) as H.
      destruct (fst (attempts cfg e (Z.to_nat (MAX_ATTEMPTS cfg)) 0%Z None
                              (started w0))) as [r|ex]; auto.
      rewrite H. discriminate.
    - discriminate. }
  split; [|split].
  - specialize (Hshape w).
    destruct (fst (scrape_xsol_apys cfg e w)) as [r|ex]; auto.
    split; auto. destruct Hshape as [H|H]; [rewrite H; discriminate|lia].
  - rewrite main_unfold. cbv zeta.
    match goal with
    | |- context [scrape_xsol_apys cfg e ?w0] =>
        specialize (Hshape w0);
        destruct (scrape_xsol_apys cfg e w0) as [[r|ex] w1]
    end.
    + cbn [fst] in Hshape. rewrite report_returns; [discriminate|].
      destruct Hshape as [H|H]; [rewrite H; discriminate|lia].
    + cbn [fst] in *. congruence.
  - intros x raw w'. reflexivity.
Qed.

(** C10: with [MAX_ATTEMPTS] zero or negative the loop body never runs and
    the final [return [], raw] reads [raw] before any assignment: the fetch
    raises [UnboundLocalError] instead of returning; with [MAX_ATTEMPTS] at
    least 1 it returns a result. *)
Theorem C10_needs_one_attempt (cfg : config) (e : env) (w : world) :
  goto_ok e = true ->
  ((MAX_ATTEMPTS cfg <= 0)%Z ->
   scrape_xsol_apys cfg e w
   = (Raised (UnboundLocalError "raw"),
      {| driver_running := false;
         browser_open := false;
         evaluations := evaluations w;
         trace := trace w
                  ++ [DriverStart; Launch; NewPage; Goto URL 60000;
                      BrowserClose; DriverStop] |})) /\
  ((1 <= MAX_ATTEMPTS cfg)%Z ->
   exists r, fst (scrape_xsol_apys cfg e w) = Returned r).
Proof.
  intro Hgo. split; intro Hmax.
  - rewrite scrape_unfold, Hgo. cbv zeta.
    replace (Z.to_nat (MAX_ATTEMPTS cfg)) with 0 by lia.
    rewrite attempts_done. cbn [fst snd].
    unfold stopped, with_trace, started.
    cbn [driver_running browser_open evaluations trace].
    repeat rewrite <- app_assoc. reflexivity.
  - rewrite scrape_unfold, Hgo. cbv zeta. cbn [fst].
    destruct (Z.to_nat (MAX_ATTEMPTS cfg)) as [|n] eqn:Hn; [lia|].
    clear Hn Hmax.
    assert (H : forall m a raw0 w0,
               exists r,
                 fst (attempts cfg e m a (Some raw0) w0) = Returned r).
    { induction m as [|m IH]; intros a raw0 w0.
      - rewrite attempts_done. eexists; reflexivity.
      - rewrite attempts_step. cbv zeta.
        destruct (2 <=? length _)%nat; [eexists; reflexivity|apply IH]. }
    rewrite attempts_step. cbv zeta.
    destruct (2 <=? length _)%nat; [eexists; reflexivity|apply H].
Qed.

(** [MAX_ATTEMPTS = 0]. *)
Lemma C10_no_attempt_witness :
  scrape_xsol_apys cfg_no_attempt env_one initial
  = (Raised (UnboundLocalError "raw"),
     {| driver_running := false;
        browser_open := false;
        evaluations := evaluations initial;
        trace := trace initial
                 ++ [DriverStart; Launch; NewPage; Goto URL 60000;
                     BrowserClose; DriverStop] |}).
Proof.
  apply (C10_needs_one_attempt cfg_no_attempt env_one initial).
  - reflexivity.
  - vm_compute. intro H. discriminate H.
Defined.

(** C3: however the fetch ends -- two values found, attempts exhausted, or
    [page.goto] failing -- the browser is closed and the Playwright driver
    stopped when it ends.  On a return the loop has called
    [browser.close()] itself; on a navigation error the exception leaves
    the [async with] block, whose exit releases the browser. *)
Theorem C3_browser_released_on_every_exit
        (cfg : config) (e : env) (w : world) :
  let r := scrape_xsol_apys cfg e w in
  browser_open (snd r) = false /\
  driver_running (snd r) = false /\
  (if goto_ok e
   then exists t,
       trace (snd r)
       = trace w ++ [DriverStart; Launch; NewPage; Goto URL 60000]
                 ++ t ++ [BrowserClose; DriverStop]
   else r = (Raised NavigationError,
             {| driver_running := false;
                browser_open := false;
                evaluations := evaluations w;
                trace := trace w
                         ++ [DriverStart; Launch; NewPage; Goto URL 60000;
                             DriverStop] |})).
Proof.
  cbv zeta. rewrite scrape_unfold.
  destruct (goto_ok e); cbv zeta; cbn [snd].
  - repeat split.
    destruct (attempts_close cfg e (Z.to_nat (MAX_ATTEMPTS cfg)) 0%Z None
                             (started w)) as [t Ht].
    exists t. unfold stopped. cbn [trace]. rewrite Ht.
    unfold started. cbn [trace]. repeat rewrite <- app_assoc. reflexivity.
  - repeat split. unfold stopped, started.
    cbn [driver_running browser_open evaluations trace].
    now rewrite <- app_assoc.
Qed.

(** ** Divergence evaluation *)

Lemma leb_refl (x : float) : is_nan x = false -> (x <=? x)%float = true.
Proof.
  unfold is_nan. intro H. apply negb_false_iff in H.
  rewrite eqb_spec in H. rewrite leb_spec.
  unfold SFeqb in H. unfold SFleb.
  destruct (SFcompare (Prim2SF x) (Prim2SF x)) as [[| |]|];
    try discriminate H; reflexivity.
Qed.

Set Warnings "-inexact-float".
Open Scope float_scope.

(** C2: on a list of two values or more the evaluation takes the first two
    in order, [difference] is [abs] of their difference and [shouldAlert]
    holds exactly when [difference >= threshold]; a difference equal to the
    threshold alerts.  On [[44.80, 41.50]] with threshold 3 the difference
    is the binary64 number printed 3.30 by the program's [.2f] and the
    alert is raised; on [[44.80, 43.50]] it is printed 1.30 and there is no
    alert; on [[10.0, 7.0]] the difference is 3 and the alert is raised. *)
Theorem C2_divergence_evaluation :
  (forall (v0 v1 : float) (rest : list float) (threshold : float),
      evaluate (v0 :: v1 :: rest) threshold
      = Some {| first := v0; second := v1;
                difference := abs (v0 - v1);
                shouldAlert := (threshold <=? abs (v0 - v1))%float |}) /\
  (forall (v0 v1 : float) (rest : list float),
      is_nan (abs (v0 - v1)) = false ->
      option_map shouldAlert (evaluate (v0 :: v1 :: rest) (abs (v0 - v1)))
      = Some true) /\
  (evaluate [44.80; 41.50] 3
   = Some {| first := 44.80; second := 41.50;
             difference := 0x1.a66666666666p+1; shouldAlert := true |}
   /\ format_2f 0x1.a66666666666p+1 = txt "3.30") /\
  (evaluate [44.80; 43.50] 3
   = Some {| first := 44.80; second := 43.50;
             difference := 0x1.4cccccccccccp+0; shouldAlert := false |}
   /\ format_2f 0x1.4cccccccccccp+0 = txt "1.30") /\
  (evaluate [10.0; 7.0] 3
   = Some {| first := 10; second := 7;
             difference := 3; shouldAlert := true |}
   /\ format_2f 3 = txt "3.00").
Proof.
  split; [|split; [|split; [|split]]].
  - intros. reflexivity.
  - intros v0 v1 rest Hnum. cbn. now rewrite leb_refl.
  - split; vm_compute; reflexivity.
  - split; vm_compute; reflexivity.
  - split; vm_compute; reflexivity.
Qed.

Close Scope float_scope.

(** ** The notifier *)

(** C4, as stated, fails for a status outside 2xx that is no client or
    server error: on a 302 answer with a JSON body nothing is raised and
    the decoded body is returned, not the value of a failed delivery. *)
Lemma C4_redirect_status_not_reported :
  post_answer env_http302 = Response 302 (Some (txt "{}")) /\
  ((200 <=? 302)%Z && (302 <? 300)%Z = false) /\
  send_telegram_message env_http302 sample_message initial
  = (Returned (Some (txt "{}")),
     with_trace initial false 0 [Post CHAT_ID sample_message]) /\
  fst (send_telegram_message env_http302 sample_message initial)
  <> Returned None.
Proof.
  repeat split. intro H. discriminate H.
Qed.

(** C4, amended: [send_telegram_message] never raises.  On a network
    error, a timeout, a status from 400 to 599, or a body that is not JSON,
    it logs the failure and returns [None]; whatever the transport does,
    the rest of [main] after the fetch returns normally, and [main] can only
    fail with the errors of the fetch. *)
Theorem C4_send_failure_is_caught (e : env) (message : alert_message)
        (w : world) :
  (exists r, fst (send_telegram_message e message w) = Returned r) /\
  (match post_answer e with
   | NetworkDown | TimedOut => True
   | Response status json => (400 <= status < 600)%Z \/ json = None
   end ->
   exists ex,
     send_telegram_message e message w
     = (Returned None,
        with_trace w (browser_open w) (evaluations w)
                   (trace w ++ [Post CHAT_ID message;
                                Stdout (SendFailed ex)]))) /\
  (forall cfg apys raw,
      length apys <> 1 -> fst (report cfg e apys raw w) = Returned tt) /\
  (forall cfg,
      match fst (main cfg e w) with
      | Returned _ => True
      | Raised ex => ex = NavigationError \/ ex = UnboundLocalError "raw"
      end).
Proof.
  split; [apply send_telegram_message_returns|].
  split; [|split].
  - intro Hfail. rewrite send_telegram_message_unfold. cbv zeta.
    destruct (post_answer e) as [| |status json];
      try (eexists; reflexivity).
    destruct ((400 <=? status)%Z && (status <? 600)%Z) eqn:Hst;
      [eexists; reflexivity|].
    destruct Hfail as [Hrange|Hjson].
    + apply andb_false_iff in Hst. destruct Hst as [H|H];
        [apply Z.leb_gt in H | apply Z.ltb_ge in H]; lia.
    + subst json. eexists; reflexivity.
  - intros cfg apys raw. apply report_returns.
  - intro cfg. rewrite main_unfold. cbv zeta.
    match goal with
    | |- context [scrape_xsol_apys cfg e ?w0] =>
        pose proof (scrape_shape cfg e w0) as Hshape;
        destruct (scrape_xsol_apys cfg e w0) as [[r|ex] w1]
    end; cbn [fst] in *.
    + rewrite report_returns; [exact I|].
      destruct Hshape as [H|H]; [rewrite H; discriminate|lia].
    + exact Hshape.
Qed.

(** The endpoint answers 500. *)
Lemma C4_http500_witness :
  exists ex,
    send_telegram_message env_http500 sample_message initial
    = (Returned None,
       with_trace initial (browser_open initial) (evaluations initial)
                  (trace initial ++ [Post CHAT_ID sample_message;
                                     Stdout (SendFailed ex)])).
Proof.
  apply (proj1 (proj2 (C4_send_failure_is_caught env_http500 sample_message
                                                 initial))).
  left. split; [intro H; discriminate H | reflexivity].
Defined.

(** ** Text search *)

Lemma starts_with_iff (needle s : text) :
  starts_with needle s = true <-> exists suf, s = needle ++ suf.
Proof.
  revert s; induction needle as [|n needle IH]; intro s.
  - cbn. split; [intros _; now exists s | reflexivity].
  - destruct s as [|c s]; cbn.
    + split; [discriminate | intros [suf H]; discriminate H].
    + rewrite andb_true_iff, Ascii.eqb_eq, IH. split.
      * intros [-> [suf ->]]. now exists suf.
      * intros [suf H]. injection H as -> ->. split; [reflexivity|].
        now exists suf.
Qed.

Lemma includes_iff (needle s : text) :
  includes needle s = true <-> exists pre suf, s = pre ++ needle ++ suf.
Proof.
  induction s as [|c s IH].
  - cbn. rewrite orb_false_r, starts_with_iff. split.
    + intros [suf H]. now exists [], suf.
    + intros [pre [suf H]]. destruct pre as [|p pre]; [|discriminate H].
      now exists suf.
  - cbn [includes]. rewrite orb_true_iff, starts_with_iff, IH. split.
    + intros [[suf H]|[pre [suf H]]].
      * now exists [], suf.
      * exists (c :: pre), suf. now rewrite H.
    + intros [pre [suf H]]. destruct pre as [|p pre].
      * left. now exists suf.
      * right. injection H as _ H. now exists pre, suf.
Qed.

Lemma includes_rev (needle s : text) :
  includes (rev needle) (rev s) = includes needle s.
Proof.
  apply eq_true_iff_eq. rewrite !includes_iff. split.
  - intros [pre [suf H]]. exists (rev suf), (rev pre).
    rewrite <- (rev_involutive s), H, !rev_app_distr, rev_involutive.
    now rewrite app_assoc.
  - intros [pre [suf H]]. exists (rev suf), (rev pre).
    now rewrite H, !rev_app_distr, app_assoc.
Qed.

(** Leading white space cannot hold the start of a needle whose first
    letter is not white space in lower case. *)
Lemma includes_drop_while (c0 : ascii) (needle s : text) :
  (forall c, js_space c = true -> lower c <> c0) ->
  includes (c0 :: needle) (toLowerCase (drop_while js_space s))
  = includes (c0 :: needle) (toLowerCase s).
Proof.
  intro Hc0. induction s as [|c s IH]; [reflexivity|].
  cbn [drop_while]. destruct (js_space c) eqn:Hsp; [|reflexivity].
  rewrite IH. cbn [toLowerCase map includes starts_with].
  destruct (Ascii.eqb_spec c0 (lower c)) as [Heq|Hne].
  - symmetry in Heq. now elim (Hc0 c Hsp).
  - reflexivity.
Qed.

Lemma js_space_lower (c : ascii) : js_space c = true -> lower c = c.
Proof.
  unfold js_space, lower, in_range.
  destruct c as [[] [] [] [] [] [] [] []]; cbn; intro H;
    try reflexivity; discriminate H.
Qed.

(** Trimming does not change whether the label is there. *)
Lemma mentions_xsol_trim (s : text) :
  mentions_xsol (trim s) = mentions_xsol s.
Proof.
  unfold mentions_xsol, trim.
  assert (Hx : forall c, js_space c = true -> lower c <> "x"%char).
  { intros c Hc. rewrite (js_space_lower c Hc). intros ->. discriminate Hc. }
  assert (Hl : forall c, js_space c = true -> lower c <> "l"%char).
  { intros c Hc. rewrite (js_space_lower c Hc). intros ->. discriminate Hc. }
  change (txt "xsol") with ("x"%char :: txt "sol").
  rewrite <- (includes_drop_while (txt "sol") s Hx).
  set (t := drop_while js_space s).
  transitivity (includes ("l"%char :: txt "osx") (toLowerCase (rev t))).
  - rewrite <- (includes_drop_while (txt "osx") (rev t) Hl).
    unfold toLowerCase. rewrite map_rev.
    apply (includes_rev ("l"%char :: txt "osx")).
  - unfold toLowerCase. rewrite map_rev.
    rewrite <- (includes_rev ("l"%char :: txt "osx") (rev (map lower t))).
    now rewrite rev_involutive.
Qed.

Lemma contains_ci_iff (label s : text) :
  contains_ci label s
  <-> includes (toLowerCase label) (toLowerCase s) = true.
Proof.
  unfold contains_ci, toLowerCase. rewrite includes_iff. split.
  - intros [pre [mid [suf [-> Hmid]]]].
    exists (map lower pre), (map lower suf).
    now rewrite !map_app, Hmid.
  - intros [pre' [suf' H]].
    apply map_eq_app in H. destruct H as [pre [rest [-> [Hpre H]]]].
    apply map_eq_app in H. destruct H as [mid [suf [-> [Hmid Hsuf]]]].
    now exists pre, mid, suf.
Qed.

(** ** The row extractor *)

Lemma fold_visit_row (rows : list element) :
  forall out,
    fold_left visit_row rows out
    = out ++ map emitted
                 (filter (fun r => mentions_xsol (row_text_of r)) rows).
Proof.
  induction rows as [|r rows IH]; intro out.
  - cbn. now rewrite app_nil_r.
  - cbn [fold_left filter]. rewrite IH. unfold visit_row.
    destruct (mentions_xsol (row_text_of r)).
    + cbn [map]. now rewrite <- app_assoc.
    + reflexivity.
Qed.

(** C8: the script emits an entry for exactly those [tr] elements of the
    document, in document order, whose full text contains "xSOL" whatever
    the letter case; nothing but the row's own text decides it. *)
Theorem C8_row_kept_iff_label_in_text (d : document) :
  page_script d
  = map emitted
        (filter (fun r => mentions_xsol (row_text_of r))
                (document_querySelectorAll (Tag "tr") d)) /\
  (forall r : element,
      mentions_xsol (row_text_of r) = true
      <-> contains_ci (txt "xSOL") (full_text r)) /\
  (forall r : element,
      In (emitted r) (page_script d)
      <-> exists r',
          In r' (document_querySelectorAll (Tag "tr") d) /\
          contains_ci (txt "xSOL") (full_text r') /\
          emitted r' = emitted r) /\
  page_script page_mixed
  = [{| rowText := txt "Pool XSol-1 4.2%"; apyText := txt "4.2%" |};
     {| rowText := txt "xsol"; apyText := [] |}].
Proof.
  assert (Hkeep : forall r : element,
             mentions_xsol (row_text_of r) = true
             <-> contains_ci (txt "xSOL") (full_text r)).
  { intro r. unfold row_text_of. rewrite mentions_xsol_trim.
    rewrite contains_ci_iff. reflexivity. }
  assert (Hscript :
            page_script d
            = map emitted
                  (filter (fun r => mentions_xsol (row_text_of r))
                          (document_querySelectorAll (Tag "tr") d))).
  { unfold page_script. now rewrite fold_visit_row. }
  split; [exact Hscript|]. split; [exact Hkeep|].
  split; [|reflexivity].
  intro r. rewrite Hscript, in_map_iff. split.
  - intros [r' [Heq Hin]]. apply filter_In in Hin. destruct Hin as [Hin Hk].
    exists r'. repeat split; auto. now apply Hkeep.
  - intros [r' [Hin [Hc Heq]]]. exists r'. split; [exact Heq|].
    apply filter_In. split; [exact Hin|]. now apply Hkeep.
Qed.

Lemma has_percent_truthy (t : text) : has_percent t = true -> truthy t = true.
Proof. destruct t; [discriminate | reflexivity]. Qed.

Lemma querySelectorAll_any (r : element) :
  querySelectorAll Any r = descendants r.
Proof.
  unfold querySelectorAll. induction (descendants r) as [|x l IH].
  - reflexivity.
  - cbn. now rewrite IH.
Qed.

(** [find] answers the first element that passes the test. *)
Lemma find_first {A} (p : A -> bool) (l : list A) :
  forall before x after,
    l = before ++ x :: after ->
    p x = true ->
    (forall b, In b before -> p b = false) ->
    find p l = Some x.
Proof.
  induction l as [|y l IH]; intros before x after Hl Hx Hb.
  - destruct before; discriminate Hl.
  - destruct before as [|b before]; cbn in Hl; injection Hl as -> ->.
    + cbn. now rewrite Hx.
    + cbn. rewrite (Hb b (or_introl eq_refl)).
      apply (IH before x after eq_refl Hx).
      intros b' Hin. apply Hb. now right.
Qed.

(** C6, as stated, fails in its last case: when the fourth cell reads "n/a"
    and no descendant text holds a percent sign, [apyText] is not empty but
    "n/a". *)
Lemma C6_candidate_without_percent_is_kept :
  length (querySelectorAll (Tag "td") row_without_percent) = 4 /\
  fourth_cell row_without_percent = txt "n/a" /\
  has_percent (fourth_cell row_without_percent) = false /\
  (forall el, In el (descendants row_without_percent) ->
              has_percent (full_text el) = false) /\
  page_script row_without_percent
  = [{| rowText := txt "xSOL a b n/a"; apyText := txt "n/a" |}] /\
  apy_text_of row_without_percent <> [].
Proof.
  repeat split.
  - intros el Hin. cbn in Hin.
    repeat (destruct Hin as [<-|Hin]; [reflexivity|]). destruct Hin.
  - intro H. discriminate H.
Qed.

(** C6, amended: for a kept row the first candidate is the trimmed text of
    the fourth [td] when there are four, and empty otherwise.  A candidate
    that holds a percent sign is [apyText].  Otherwise the first descendant
    in document order whose text holds a percent sign gives [apyText],
    trimmed; when there is none, [apyText] stays the candidate, which is
    empty only if the fourth cell is missing or blank.  The row is emitted
    in every case.  The row whose fourth cell reads "n/a" and which has a
    nested descendant reading "12.5%" gets "12.5%". *)
Theorem C6_apy_text_chain (r : element) :
  (fourth_cell r
   = match nth_error (querySelectorAll (Tag "td") r) 3 with
     | Some td => trim (full_text td)
     | None => []
     end
   /\ (nth_error (querySelectorAll (Tag "td") r) 3 = None
       <-> length (querySelectorAll (Tag "td") r) < 4)) /\
  (has_percent (fourth_cell r) = true -> apy_text_of r = fourth_cell r) /\
  (has_percent (fourth_cell r) = false ->
   forall t, first_percent_text r t -> apy_text_of r = trim t) /\
  (has_percent (fourth_cell r) = false ->
   (forall el, In el (descendants r) -> has_percent (full_text el) = false) ->
   apy_text_of r = fourth_cell r) /\
  (forall out,
      mentions_xsol (row_text_of r) = true ->
      visit_row out r = out ++ [emitted r]) /\
  (fourth_cell row_with_badge = txt "n/a"
   /\ first_percent_text row_with_badge (txt "12.5%")
   /\ apy_text_of row_with_badge = txt "12.5%").
Proof.
  assert (Hcond : forall c,
             negb (truthy c) || negb (has_percent c) = negb (has_percent c)).
  { intro c. destruct (has_percent c) eqn:H.
    - now rewrite (has_percent_truthy c H).
    - apply orb_true_r. }
  split; [|split; [|split; [|split; [|split]]]].
  - split; [reflexivity|]. rewrite nth_error_None. lia.
  - intro Hp. unfold apy_text_of. now rewrite Hcond, Hp.
  - intros Hp t [before [el0 [after [Hd [Ht [Hpt Hb]]]]]].
    unfold apy_text_of. rewrite Hcond, Hp. cbn [negb].
    unfold fallback. rewrite querySelectorAll_any, Hd, map_app. cbn [map].
    fold (full_text el0). rewrite Ht.
    rewrite (@find_first _ _ _ (map (fun el1 => or_empty (innerText el1)) before)
                         t
                         (map (fun el1 => or_empty (innerText el1)) after)
                         eq_refl).
    + now rewrite (has_percent_truthy t Hpt).
    + now rewrite Hpt, (has_percent_truthy t Hpt).
    + intros b Hin. apply in_map_iff in Hin. destruct Hin as [b0 [<- Hin]].
      fold (full_text b0). rewrite (Hb b0 Hin). apply andb_false_r.
  - intros Hp Hnone. unfold apy_text_of. rewrite Hcond, Hp. cbn [negb].
    unfold fallback. rewrite querySelectorAll_any.
    destruct (find _ _) as [found|] eqn:Hf; [|reflexivity].
    apply find_some in Hf. destruct Hf as [Hin Hfound].
    apply in_map_iff in Hin. destruct Hin as [el0 [<- Hin]].
    fold (full_text el0) in Hfound. rewrite (Hnone el0 Hin) in Hfound.
    rewrite andb_false_r in Hfound. discriminate Hfound.
  - intros out Hm. unfold visit_row. now rewrite Hm.
  - split; [reflexivity|]. split; [|reflexivity].
    exists [el "td" "xSOL" []; el "td" "a" []; el "td" "b" [];
            el "td" "n/a" []],
           (el "td" "12.5%" [el "span" "12.5%" []]),
           [el "span" "12.5%" []].
    repeat split. intros b Hin.
    repeat (destruct Hin as [<-|Hin]; [reflexivity|]). destruct Hin.
Qed.

(** ** The percent parser *)

Section Runs.
Variable p : ascii -> bool.

Lemma take_drop_while (s : text) : take_while p s ++ drop_while p s = s.
Proof.
  induction s as [|c s IH]; [reflexivity|].
  cbn. destruct (p c); [cbn; now rewrite IH | reflexivity].
Qed.

Lemma take_while_run (s : text) : run p (take_while p s).
Proof.
  unfold run. induction s as [|c s IH]; [reflexivity|].
  cbn. destruct (p c) eqn:H; [cbn; now rewrite H | reflexivity].
Qed.

Lemma take_while_app (m r : text) :
  run p m -> stops p r -> take_while p (m ++ r) = m.
Proof.
  unfold run. intros Hm Hr. induction m as [|c m IH].
  - destruct r as [|c r]; [reflexivity|]. cbn in *. now rewrite Hr.
  - cbn in *. apply andb_true_iff in Hm. destruct Hm as [Hc Hm].
    now rewrite Hc, IH.
Qed.

Lemma drop_while_app (m r : text) :
  run p m -> stops p r -> drop_while p (m ++ r) = r.
Proof.
  unfold run. intros Hm Hr. induction m as [|c m IH].
  - destruct r as [|c r]; [reflexivity|]. cbn in *. now rewrite Hr.
  - cbn in *. apply andb_true_iff in Hm. destruct Hm as [Hc Hm].
    now rewrite Hc, IH.
Qed.

(** When what follows cannot succeed right before a character that passes
    [p], the greedy star settles on the longest run. *)
Lemma star_longest {A} (s : text) :
  forall k : text -> text -> option A,
    (forall m c r, p c = true -> k m (c :: r) = None) ->
    star p s k = k (take_while p s) (drop_while p s).
Proof.
  induction s as [|c s IH]; intros k Hk; [reflexivity|].
  cbn. destruct (p c) eqn:Hc; [|reflexivity].
  rewrite IH.
  - rewrite (Hk [] c s Hc).
    destruct (k (c :: take_while p s) (drop_while p s)); reflexivity.
  - intros m c' r Hc'. now apply Hk.
Qed.

Lemma plus_longest {A} (s : text) (k : text -> text -> option A) :
  (forall m c r, p c = true -> k m (c :: r) = None) ->
  plus p s k = match take_while p s with
               | [] => None
               | m => k m (drop_while p s)
               end.
Proof.
  intro Hk. destruct s as [|c s]; [reflexivity|].
  cbn. destruct (p c) eqn:Hc; [|reflexivity].
  apply star_longest. intros m c' r Hc'. now apply Hk.
Qed.

End Runs.

Lemma digit_not_special (c : ascii) :
  is_digit c = true ->
  py_space c = false /\ c <> "%"%char /\ c <> "."%char /\ c <> "-"%char.
Proof.
  destruct c as [[] [] [] [] [] [] [] []]; intro H;
    try discriminate H; repeat split; try reflexivity; discriminate.
Qed.

Lemma space_not_special (c : ascii) :
  py_space c = true -> c <> "%"%char /\ c <> "."%char.
Proof.
  destruct c as [[] [] [] [] [] [] [] []]; intro H;
    try discriminate H; split; discriminate.
Qed.

Lemma lit_other {A} (c x : ascii) (r : text) (k : text -> option A) :
  x <> c -> lit c (x :: r) k = None.
Proof.
  intro H. cbn. destruct (Ascii.eqb_spec x c); [contradiction|reflexivity].
Qed.

Lemma percent_after_digit (g : text) (c : ascii) (r : text) :
  is_digit c = true -> percent_after g (c :: r) = None.
Proof.
  intro Hc. destruct (digit_not_special c Hc) as [Hs [Hp _]].
  unfold percent_after. cbn [drop_while]. rewrite Hs.
  now apply lit_other.
Qed.

(** The backtracking matcher reads the number as the direct reading does. *)
Lemma match_here_direct (s : text) :
  match_here s
  = orelse (lit "-" s (fun r1 => number_direct ["-"%char] r1))
           (number_direct [] s).
Proof.
  assert (Htail : forall g r,
             star py_space r
                  (fun _ r6 => lit "%" r6 (fun _ => Some g))
             = percent_after g r).
  { intros g r. rewrite star_longest; [reflexivity|].
    intros m c r' Hc. destruct (space_not_special c Hc) as [Hp _].
    now apply lit_other. }
  assert (Hnum : forall sign r1,
             plus is_digit r1 (fun ds r2 =>
               orelse
                 (lit "." r2 (fun r3 =>
                    plus is_digit r3 (fun fs r4 =>
                      star py_space r4 (fun _ r6 =>
                        lit "%" r6
                            (fun _ => Some (sign ++ ds ++ "."%char :: fs))))))
                 (star py_space r2 (fun _ r6 =>
                    lit "%" r6 (fun _ => Some (sign ++ ds ++ [])))))
             = number_direct sign r1).
  { intros sign r1. rewrite plus_longest.
    - unfold number_direct.
      destruct (take_while is_digit r1) as [|d ds]; [reflexivity|].
      cbv zeta. rewrite Htail. f_equal.
      destruct (drop_while is_digit r1) as [|x r2]; [reflexivity|].
      cbn [lit]. destruct (Ascii.eqb x "."); [|reflexivity].
      rewrite plus_longest.
      + destruct (take_while is_digit r2) as [|f fs]; [reflexivity|].
        apply Htail.
      + intros m c r Hc. rewrite Htail. now apply percent_after_digit.
    - intros m c r Hc. destruct (digit_not_special c Hc) as [_ [_ [Hd _]]].
      rewrite lit_other by exact Hd. rewrite Htail. cbn [orelse].
      now apply percent_after_digit. }
  unfold match_here. rewrite Hnum.
  destruct s as [|x r]; [reflexivity|].
  cbn [lit]. destruct (Ascii.eqb x "-"); [|reflexivity].
  now rewrite Hnum.
Qed.

Lemma percent_after_some (g r g' : text) :
  percent_after g r = Some g' ->
  g' = g /\ exists ws rest, r = ws ++ "%"%char :: rest /\ run py_space ws.
Proof.
  unfold percent_after. intro H.
  pose proof (take_drop_while py_space r) as Hr.
  destruct (drop_while py_space r) as [|x rest]; [discriminate H|].
  cbn in H. destruct (Ascii.eqb_spec x "%") as [->|]; [|discriminate H].
  injection H as <-. split; [reflexivity|].
  exists (take_while py_space r), rest. split; [now symmetry|].
  apply take_while_run.
Qed.

Lemma percent_after_token (g ws rest : text) :
  run py_space ws -> percent_after g (ws ++ "%"%char :: rest) = Some g.
Proof.
  intro Hws. unfold percent_after.
  rewrite drop_while_app; [reflexivity | exact Hws | reflexivity].
Qed.

Lemma spaces_percent_head (ws rest : text) :
  run py_space ws ->
  stops is_digit (ws ++ "%"%char :: rest) /\
  forall x r', ws ++ "%"%char :: rest = x :: r' -> x <> "."%char.
Proof.
  intro Hws. destruct ws as [|w ws].
  - split; [reflexivity|]. intros x r' H. injection H as <- _. discriminate.
  - unfold run in Hws. cbn in Hws. apply andb_true_iff in Hws.
    destruct Hws as [Hw _]. destruct (space_not_special w Hw) as [_ Hdot].
    split.
    + cbn. destruct (is_digit w) eqn:Hd; [|reflexivity].
      destruct (digit_not_special w Hd) as [Hs _]. congruence.
    + intros x r' H. injection H as <- _. exact Hdot.
Qed.

(** The direct reading finds a number exactly where a token stands. *)
Lemma number_direct_some (sign r1 g : text) :
  number_direct sign r1 = Some g <->
  exists ds frac ws rest,
    r1 = ds ++ frac ++ ws ++ "%"%char :: rest /\
    ds <> [] /\ run is_digit ds /\
    (frac = [] \/ fraction frac) /\
    run py_space ws /\
    g = sign ++ ds ++ frac.
Proof.
  split.
  - unfold number_direct. intro H.
    pose proof (take_drop_while is_digit r1) as Hr1.
    pose proof (take_while_run is_digit r1) as Hds.
    destruct (take_while is_digit r1) as [|d ds] eqn:Htake;
      [discriminate H|].
    cbv zeta in H.
    destruct (drop_while is_digit r1) as [|x r2] eqn:Hdrop.
    + cbn in H. discriminate H.
    + cbn [lit] in H.
      destruct (Ascii.eqb_spec x ".") as [->|Hx].
      * pose proof (take_drop_while is_digit r2) as Hr2.
        pose proof (take_while_run is_digit r2) as Hfs.
        destruct (take_while is_digit r2) as [|f fs] eqn:Htake2.
        -- cbn [orelse] in H. apply percent_after_some in H.
           destruct H as [-> [ws [rest [Hws Hrun]]]].
           exists (d :: ds), [], ws, rest. rewrite <- Hr1, Hws.
           repeat split; auto. discriminate.
        -- destruct (percent_after (sign ++ (d :: ds) ++ "."%char :: f :: fs)
                                   (drop_while is_digit r2)) eqn:Hpa.
           ++ cbn [orelse] in H. injection H as <-.
              apply percent_after_some in Hpa.
              destruct Hpa as [-> [ws [rest [Hws Hrun]]]].
              exists (d :: ds), ("."%char :: f :: fs), ws, rest.
              rewrite <- Hr1, <- Hr2, Hws. repeat split; auto.
              ** discriminate.
              ** right. exists (f :: fs). repeat split; auto. discriminate.
           ++ cbn [orelse] in H. apply percent_after_some in H.
              destruct H as [-> [ws [rest [Hws Hrun]]]].
              exists (d :: ds), [], ws, rest. rewrite <- Hr1, Hws.
              repeat split; auto. discriminate.
      * cbn [orelse] in H. apply percent_after_some in H.
        destruct H as [-> [ws [rest [Hws Hrun]]]].
        exists (d :: ds), [], ws, rest. rewrite <- Hr1, Hws.
        repeat split; auto. discriminate.
  - intros [ds [frac [ws [rest [-> [Hne [Hds [Hfrac [Hws ->]]]]]]]]].
    destruct (spaces_percent_head rest Hws) as [Hstop Hnodot].
    unfold number_direct.
    assert (Hstop' : stops is_digit (frac ++ ws ++ "%"%char :: rest)).
    { destruct Hfrac as [->|[fs [-> _]]]; [exact Hstop | reflexivity]. }
    rewrite take_while_app, drop_while_app by assumption.
    destruct ds as [|d ds]; [now elim Hne|]. cbv zeta.
    destruct Hfrac as [->|[fs [-> [Hfne Hfs]]]].
    + cbn [app].
      destruct (ws ++ "%"%char :: rest) as [|x r2] eqn:Hr2.
      * destruct ws; discriminate Hr2.
      * rewrite lit_other by (now apply (Hnodot x r2)).
        cbn [orelse]. rewrite <- Hr2. now apply percent_after_token.
    + cbn [app lit]. rewrite Ascii.eqb_refl.
      rewrite take_while_app, drop_while_app by assumption.
      destruct fs as [|f fs]; [now elim Hfne|].
      rewrite percent_after_token by assumption. reflexivity.
Qed.

Lemma match_here_token (s g : text) :
  match_here s = Some g <-> pct_token g s.
Proof.
  rewrite match_here_direct. unfold pct_token. split.
  - intro H. destruct s as [|x r].
    + cbn in H. discriminate H.
    + cbn [lit] in H. destruct (Ascii.eqb_spec x "-") as [->|Hx].
      * assert (Hnone : number_direct [] ("-"%char :: r) = None)
          by reflexivity.
        rewrite Hnone in H.
        assert (H' : number_direct ["-"%char] r = Some g).
        { destruct (number_direct ["-"%char] r); [exact H | discriminate H]. }
        apply number_direct_some in H'.
        destruct H' as [ds [frac [ws [rest [-> [? [? [? [? ->]]]]]]]]].
        exists ["-"%char], ds, frac, ws, rest. repeat split; auto.
      * cbn [orelse] in H. apply number_direct_some in H.
        destruct H as [ds [frac [ws [rest [Hs [? [? [? [? ->]]]]]]]]].
        exists [], ds, frac, ws, rest. repeat split; auto.
  - intros [sign [ds [frac [ws [rest [-> [Hsign [Hne [Hds [Hfrac [Hws ->]]]]]]]]]]].
    assert (Hnum : forall sg,
               number_direct sg (ds ++ frac ++ ws ++ "%"%char :: rest)
               = Some (sg ++ ds ++ frac)).
    { intro sg. apply number_direct_some.
      exists ds, frac, ws, rest. repeat split; auto. }
    destruct Hsign as [->| ->].
    + cbn [app]. destruct ds as [|d ds]; [now elim Hne|].
      unfold run in Hds. cbn in Hds. apply andb_true_iff in Hds.
      destruct Hds as [Hd Hds].
      destruct (digit_not_special d Hd) as [_ [_ [_ Hminus]]].
      cbn [app]. rewrite lit_other by exact Hminus. cbn [orelse].
      apply (Hnum []).
    + cbn [app lit]. rewrite Ascii.eqb_refl. now rewrite (Hnum ["-"%char]).
Qed.

Lemma no_token_in_nil (g : text) : ~ pct_token g [].
Proof.
  intro H. apply match_here_token in H. discriminate H.
Qed.

Lemma search_none (s : text) :
  search s = None <->
  forall pre suf g, s = pre ++ suf -> ~ pct_token g suf.
Proof.
  induction s as [|c r IH].
  - split.
    + intros _ pre suf g H. destruct pre; [|discriminate H].
      cbn in H. subst suf. apply no_token_in_nil.
    + reflexivity.
  - cbn [search]. split.
    + intros H pre suf g Hs Htok.
      destruct (match_here (c :: r)) as [g0|] eqn:Hm; [discriminate H|].
      cbn [orelse] in H. destruct pre as [|p pre].
      * cbn in Hs. subst suf. apply match_here_token in Htok. congruence.
      * injection Hs as _ Hs.
        exact (proj1 IH H pre suf g Hs Htok).
    + intro H. destruct (match_here (c :: r)) as [g0|] eqn:Hm.
      * apply match_here_token in Hm. now elim (H [] (c :: r) g0 eq_refl).
      * cbn [orelse]. apply IH. intros pre suf g Hs.
        apply (H (c :: pre) suf g). now rewrite Hs.
Qed.

Lemma search_some (s g : text) :
  search s = Some g <-> first_token s g.
Proof.
  unfold first_token. revert g. induction s as [|c r IH]; intro g.
  - split; [discriminate|].
    intros [pre [suf [Hs [Htok _]]]]. destruct pre; [|discriminate Hs].
    cbn in Hs. subst suf. now elim (no_token_in_nil Htok).
  - cbn [search]. split.
    + intro H. destruct (match_here (c :: r)) as [g0|] eqn:Hm.
      * cbn [orelse] in H. injection H as <-.
        exists [], (c :: r). split; [reflexivity|].
        split; [now apply match_here_token|].
        intros pre' suf' g' _ Hlen. cbn in Hlen. lia.
      * cbn [orelse] in H. apply IH in H.
        destruct H as [pre [suf [Hs [Htok Hmin]]]].
        exists (c :: pre), suf. split; [now rewrite Hs|]. split; [exact Htok|].
        intros pre' suf' g' Hs' Hlen Htok'. destruct pre' as [|p pre'].
        -- cbn in Hs'. subst suf'. apply match_here_token in Htok'.
           congruence.
        -- injection Hs' as _ Hs'. cbn in Hlen.
           apply (Hmin pre' suf' g' Hs'); [lia | exact Htok'].
    + intros [pre [suf [Hs [Htok Hmin]]]]. destruct pre as [|p pre].
      * cbn in Hs. subst suf. apply match_here_token in Htok.
        now rewrite Htok.
      * injection Hs as <- Hs.
        destruct (match_here (c :: r)) as [g0|] eqn:Hm.
        -- apply match_here_token in Hm.
           elim (Hmin [] (c :: r) g0 eq_refl); [cbn; lia | exact Hm].
        -- cbn [orelse]. apply IH. exists pre, suf.
           split; [exact Hs|]. split; [exact Htok|].
           intros pre' suf' g' Hs' Hlen.
           apply (Hmin (c :: pre') suf' g'); [now rewrite Hs' | cbn; lia].
Qed.

(** [float] accepts the number of every token and rounds its decimal
    value. *)
Lemma py_float_token (g s : text) :
  pct_token g s -> exists v, py_float g = Some v /\ number_value g v.
Proof.
  intros [sign [ds [frac [ws [rest [_ [Hsign [Hne [Hds [Hfrac [_ ->]]]]]]]]]]].
  assert (Hbody :
            exists (fs : text),
              run is_digit fs /\
              frac = match fs with [] => [] | _ :: _ => "."%char :: fs end /\
              match take_while is_digit (ds ++ frac),
                    match drop_while is_digit (ds ++ frac) with
                    | [] => Some []
                    | c :: f =>
                        if Ascii.eqb c "." && forallb is_digit f && truthy f
                        then Some f else None
                    end
              with
              | _ :: _, Some f => Some (ds ++ f, length f)
              | _, _ => None
              end = Some (ds ++ fs, length fs)).
  { destruct Hfrac as [->|[fs [-> [Hfne Hfs]]]].
    - exists []. repeat split.
      rewrite take_while_app, drop_while_app by (assumption || exact I).
      rewrite app_nil_r. destruct ds; [now elim Hne | reflexivity].
    - exists fs. split; [exact Hfs|]. split.
      + destruct fs; [now elim Hfne | reflexivity].
      + rewrite take_while_app, drop_while_app
          by (assumption || reflexivity).
        rewrite Ascii.eqb_refl. unfold run in Hfs. rewrite Hfs.
        destruct fs; [now elim Hfne|].
        destruct ds; [now elim Hne | reflexivity]. }
  destruct Hbody as [fs [Hfs [Hfrac' Hread]]].
  assert (Hval : forall neg,
             match take_while is_digit (ds ++ frac),
                   match drop_while is_digit (ds ++ frac) with
                   | [] => Some []
                   | c :: f =>
                       if Ascii.eqb c "." && forallb is_digit f && truthy f
                       then Some f else None
                   end
             with
             | _ :: _, Some f =>
                 Some (round_decimal neg
                         (digits_val (take_while is_digit (ds ++ frac) ++ f))
                         (length f))
             | _, _ => None
             end
             = Some (round_decimal neg (digits_val (ds ++ fs)) (length fs))).
  { intro neg. revert Hread.
    assert (Htake : take_while is_digit (ds ++ frac) = ds).
    { apply take_while_app; [exact Hds|].
      destruct Hfrac as [->|[fs0 [-> _]]]; [exact I | reflexivity]. }
    rewrite Htake.
    destruct ds as [|d ds']; [now elim Hne|].
    destruct (match drop_while is_digit ((d :: ds') ++ frac) with
              | [] => Some []
              | c :: f =>
                  if Ascii.eqb c "." && forallb is_digit f && truthy f
                  then Some f else None
              end) as [f|]; [|discriminate].
    intro H. injection H as H1 H2.
    apply app_inv_head in H1. now subst f. }
  exists (round_decimal (match sign with [] => false | _ :: _ => true end)
                        (digits_val (ds ++ fs)) (length fs)).
  split.
  - unfold py_float. destruct Hsign as [->| ->].
    + destruct ds as [|d ds']; [now elim Hne|].
      unfold run in Hds. pose proof Hds as Hds0. cbn in Hds0.
      apply andb_true_iff in Hds0. destruct Hds0 as [Hd _].
      destruct (digit_not_special d Hd) as [_ [_ [_ Hminus]]].
      cbn [app]. destruct (Ascii.eqb_spec d "-") as [->|_];
        [now elim Hminus|].
      apply (Hval false).
    + cbn [app]. rewrite Ascii.eqb_refl. apply (Hval true).
  - exists (match sign with [] => false | _ :: _ => true end), ds, fs.
    repeat split; auto.
    destruct Hsign as [->| ->]; cbn [app]; now rewrite Hfrac'.
Qed.

Lemma digit_then_percent_found (a : text) :
  forall (c : ascii) (b : text),
    is_digit c = true ->
    digit_then_percent (a ++ c :: "%"%char :: b) = true.
Proof.
  induction a as [|x a IH]; intros c b Hc.
  - cbn. now rewrite Hc.
  - cbn [app]. specialize (IH c b Hc).
    destruct (a ++ c :: "%"%char :: b) as [|d r] eqn:Hr.
    + destruct a; discriminate Hr.
    + change (digit_then_percent (x :: d :: r))
        with ((is_digit x && Ascii.eqb d "%") || digit_then_percent (d :: r)).
      rewrite IH. apply orb_true_r.
Qed.

Lemma run_last (p : ascii -> bool) (m : text) :
  m <> [] -> run p m -> exists m' c, m = m' ++ [c] /\ p c = true.
Proof.
  intros Hne Hm. destruct (exists_last Hne) as [m' [c ->]].
  exists m', c. split; [reflexivity|].
  unfold run in Hm. rewrite forallb_app in Hm.
  apply andb_true_iff in Hm. destruct Hm as [_ Hc]. cbn in Hc.
  now rewrite andb_true_r in Hc.
Qed.

(** A token in the claim's wording puts a digit right before a percent
    sign. *)
Lemma claimed_token_digit_percent (pre suf : text) :
  claimed_token suf -> digit_then_percent (pre ++ suf) = true.
Proof.
  intros [sign [ds [frac [rest [-> [_ [Hne [Hds Hfrac]]]]]]]].
  destruct Hfrac as [->|[fs [-> [Hfne Hfs]]]].
  - destruct (run_last Hne Hds) as [ds' [c [-> Hc]]].
    replace (pre ++ sign ++ (ds' ++ [c]) ++ [] ++ "%"%char :: rest)
      with ((pre ++ sign ++ ds') ++ c :: "%"%char :: rest)
      by (repeat rewrite <- app_assoc; reflexivity).
    now apply digit_then_percent_found.
  - destruct (run_last Hfne Hfs) as [fs' [c [-> Hc]]].
    replace (pre ++ sign ++ ds ++ ("."%char :: fs' ++ [c])
                 ++ "%"%char :: rest)
      with ((pre ++ sign ++ ds ++ "."%char :: fs') ++ c :: "%"%char :: rest)
      by (cbn; repeat rewrite <- app_assoc; reflexivity).
    now apply digit_then_percent_found.
Qed.

Open Scope float_scope.

(** C5, as stated, fails: in "5 %" no sign-digits-fraction stands next to a
    percent sign, yet the parser answers 5.0, because the pattern allows
    white space between the number and the percent sign. *)
Lemma C5_space_before_percent_is_matched :
  (forall pre suf, txt "5 %" = pre ++ suf -> ~ claimed_token suf) /\
  parse_percent (txt "5 %") = Some 5 /\
  parse_percent (txt "5 %") <> None.
Proof.
  split; [|split].
  - intros pre suf Hs Htok.
    pose proof (claimed_token_digit_percent pre Htok) as H.
    rewrite <- Hs in H. discriminate H.
  - vm_compute. reflexivity.
  - vm_compute. intro H. discriminate H.
Qed.

(** C5, amended: the parser looks for an optional minus sign, digits, an
    optional decimal fraction, optional white space and a percent sign, and
    takes the first such token from the left.  When there is one, the
    result is the binary64 number nearest to the decimal number of the
    token; when there is none, there is no match.  "Fixed APY: 44.80%"
    gives 44.80, "-3%" gives -3.0, "no number here" gives no match. *)
Theorem C5_parse_percent_reads_first_token (s : text) :
  (forall g, first_token s g ->
             exists v, parse_percent s = Some v /\ number_value g v) /\
  (forall v, parse_percent s = Some v ->
             exists g, first_token s g /\ number_value g v) /\
  (parse_percent s = None
   <-> forall pre suf g, s = pre ++ suf -> ~ pct_token g suf) /\
  (parse_percent (txt "Fixed APY: 44.80%") = Some 44.80 /\
   parse_percent (txt "-3%") = Some (-3.0) /\
   parse_percent (txt "no number here") = None /\
   parse_percent (txt "44.80 %") = Some 44.80 /\
   first_token (txt "Fixed APY: 44.80%") (txt "44.80") /\
   first_token (txt "1.5.2%") (txt "5.2")).
Proof.
  assert (Hfloat : forall g, search s = Some g ->
                             exists v, py_float g = Some v /\ number_value g v).
  { intros g Hg. apply search_some in Hg.
    destruct Hg as [pre [suf [_ [Htok _]]]].
    exact (py_float_token Htok). }
  split; [|split; [|split]].
  - intros g Hg. apply search_some in Hg. unfold parse_percent.
    rewrite Hg. now apply Hfloat.
  - intros v Hv. unfold parse_percent in Hv.
    destruct (search s) as [g|] eqn:Hg; [|discriminate Hv].
    exists g. split; [now apply search_some|].
    destruct (Hfloat g eq_refl) as [v' [Hv' Hnum]]. congruence.
  - rewrite <- search_none. unfold parse_percent.
    destruct (search s) as [g|] eqn:Hg.
    + destruct (Hfloat g eq_refl) as [v [Hv _]]. rewrite Hv.
      split; discriminate.
    + split; reflexivity.
  - repeat split; try (vm_compute; reflexivity);
      apply search_some; vm_compute; reflexivity.
Qed.

Close Scope float_scope.

(** * Further properties of the code *)

(** ** The parsing loop *)

(** [float] accepts whatever the regular expression captures. *)
Lemma search_float (s g : text) :
  search s = Some g -> exists v, py_float g = Some v.
Proof.
  intro Hg. apply search_some in Hg.
  destruct Hg as [pre [suf [_ [Htok _]]]].
  destruct (py_float_token Htok) as [v [Hv _]]. now exists v.
Qed.

Lemma parse_percent_none (s : text) :
  parse_percent s = None <-> ~ has_token s.
Proof.
  unfold parse_percent, has_token. split.
  - intros H [pre [suf [g [Hs Htok]]]].
    destruct (search s) as [g0|] eqn:Hg.
    + destruct (search_float s Hg) as [v Hv]. congruence.
    + exact (proj1 (search_none s) Hg pre suf g Hs Htok).
  - intro H. destruct (search s) as [g0|] eqn:Hg; [|reflexivity].
    apply search_some in Hg. destruct Hg as [pre [suf [Hs [Htok _]]]].
    elim H. now exists pre, suf, g0.
Qed.

Lemma parse_item_row_value (apys : list float) (debug : list debug_entry)
      (item : extracted_row) :
  parse_item (apys, debug) item
  = match row_value item with
    | Some v => (apys ++ [v], debug)
    | None => (apys, debug ++ [debug_of item])
    end.
Proof.
  unfold parse_item, row_value, parse_percent, debug_of.
  destruct (search (apyText item)) as [g|] eqn:Ha; cbn [orelse].
  - destruct (search_float _ Ha) as [v Hv]. now rewrite Hv.
  - destruct (search (rowText item)) as [g|] eqn:Hr; [|reflexivity].
    destruct (search_float _ Hr) as [v Hv]. now rewrite Hv.
Qed.

Lemma fold_parse_item (raw : list extracted_row) :
  forall apys debug,
    fold_left parse_item raw (apys, debug)
    = (apys ++ flat_map (fun item => option_list (row_value item)) raw,
       debug ++ map debug_of
                    (filter (fun item => is_none (row_value item)) raw)).
Proof.
  induction raw as [|item raw IH]; intros apys debug.
  - cbn. now rewrite !app_nil_r.
  - cbn [fold_left flat_map filter]. rewrite parse_item_row_value.
    destruct (row_value item) as [v|]; rewrite IH; cbn [option_list is_none];
      cbn [map app]; now rewrite <- !app_assoc.
Qed.

(** X1: the parsing loop goes through the rows in order and takes from each
    row at most one value: the first percentage of its [apyText], or else
    the first percentage of its [rowText]; a row lands in the debug list
    exactly when neither text holds a percentage token, so each row is
    counted once and the [except] branch around [float] is never taken. *)
Theorem X1_parse_rows_row_by_row (raw : list extracted_row) :
  parse_rows raw
  = (flat_map (fun item => option_list (row_value item)) raw,
     map debug_of (filter (fun item => is_none (row_value item)) raw)) /\
  length (values_of raw) + length (snd (parse_rows raw)) = length raw /\
  (forall item,
      row_value item = None
      <-> ~ has_token (apyText item) /\ ~ has_token (rowText item)) /\
  (forall item v,
      parse_percent (apyText item) = Some v -> row_value item = Some v).
Proof.
  assert (Heq : parse_rows raw
                = (flat_map (fun item => option_list (row_value item)) raw,
                   map debug_of
                       (filter (fun item => is_none (row_value item)) raw))).
  { unfold parse_rows. now rewrite fold_parse_item. }
  split; [exact Heq|]. split; [|split].
  - unfold values_of. rewrite Heq. cbn [fst snd]. clear Heq.
    induction raw as [|item raw IH]; [reflexivity|].
    cbn [flat_map filter]. destruct (row_value item);
      cbn [option_list is_none map app length]; rewrite ?length_app; lia.
  - intro item. unfold row_value.
    destruct (parse_percent (apyText item)) as [v|] eqn:Ha.
    + split; [discriminate|]. intros [Hno _].
      apply parse_percent_none in Hno. congruence.
    + rewrite parse_percent_none. split.
      * intro H. split; [now apply parse_percent_none | exact H].
      * now intros [_ H].
  - intros item v H. unfold row_value. now rewrite H.
Qed.

(** ** The notifier, whatever the transport *)

Lemma posts_app (t u : list event) : posts (t ++ u) = posts t ++ posts u.
Proof. unfold posts. apply filter_app. Qed.

Lemma send_telegram_message_log (e : env) (message : alert_message)
      (w : world) :
  send_telegram_message e message w
  = (Returned match failure_of (post_answer e) with
              | Some _ => None
              | None => match post_answer e with
                        | Response _ json => json
                        | _ => None
                        end
              end,
     with_trace w (browser_open w) (evaluations w)
                (trace w ++ Post CHAT_ID message
                         :: match failure_of (post_answer e) with
                            | Some ex => [Stdout (SendFailed ex)]
                            | None => []
                            end)).
Proof.
  rewrite send_telegram_message_unfold. cbv zeta. unfold failure_of.
  destruct (post_answer e) as [| |status json]; try reflexivity.
  destruct ((400 <=? status)%Z && (status <? 600)%Z); [reflexivity|].
  destruct json; reflexivity.
Qed.

(** X2: [send_telegram_message] makes exactly one request and never a
    second one.  It returns the decoded answer exactly when a response
    arrives whose status is outside 400..599 and whose body is JSON, and
    then prints nothing; in every other case it prints the failure once
    and returns [None].  Nothing but the trace changes. *)
Theorem X2_send_one_request (e : env) (message : alert_message) (w : world) :
  let r := send_telegram_message e message w in
  posts (trace (snd r)) = posts (trace w) ++ [Post CHAT_ID message] /\
  (fst r = Returned None <-> failure_of (post_answer e) <> None) /\
  (forall j, fst r = Returned (Some j)
             <-> exists status,
                 post_answer e = Response status (Some j) /\
                 ~ (400 <= status < 600)%Z) /\
  (failure_of (post_answer e) = None ->
   trace (snd r) = trace w ++ [Post CHAT_ID message]) /\
  (forall ex, failure_of (post_answer e) = Some ex ->
              trace (snd r)
              = trace w ++ [Post CHAT_ID message; Stdout (SendFailed ex)]) /\
  browser_open (snd r) = browser_open w /\
  driver_running (snd r) = driver_running w /\
  evaluations (snd r) = evaluations w.
Proof.
  cbv zeta. rewrite send_telegram_message_log. cbn [fst snd].
  unfold with_trace. cbn [trace browser_open driver_running evaluations].
  split; [|split; [|split; [|split; [|split]]]].
  - rewrite posts_app. f_equal.
    destruct (failure_of (post_answer e)); reflexivity.
  - unfold failure_of.
    destruct (post_answer e) as [| |status json];
      try (split; [discriminate | reflexivity]).
    destruct ((400 <=? status)%Z && (status <? 600)%Z);
      [split; [discriminate | reflexivity]|].
    destruct json; split; try discriminate; try reflexivity.
    intro H. now elim H.
  - intro j. unfold failure_of.
    destruct (post_answer e) as [| |status json].
    + split; [discriminate | intros [st [H _]]; discriminate H].
    + split; [discriminate | intros [st [H _]]; discriminate H].
    + destruct ((400 <=? status)%Z && (status <? 600)%Z) eqn:Hst.
      * split; [discriminate|]. intros [st [H Hout]].
        injection H as -> _. apply andb_true_iff in Hst.
        destruct Hst as [H1 H2]. apply Z.leb_le in H1. apply Z.ltb_lt in H2.
        elim Hout. lia.
      * destruct json as [j0|].
        -- split.
           ++ intro H. injection H as ->. exists status.
              split; [reflexivity|]. intro Hin.
              apply andb_false_iff in Hst. destruct Hst as [H|H];
                [apply Z.leb_gt in H | apply Z.ltb_ge in H]; lia.
           ++ intros [st [H _]]. injection H as _ ->. reflexivity.
        -- split; [discriminate | intros [st [H _]]; discriminate H].
  - intro H. now rewrite H.
  - intros ex H. now rewrite H.
  - repeat split.
Qed.

(** ** [main] after the fetch *)

Open Scope float_scope.

Lemma report_two_eq (cfg : config) (e : env) (v0 v1 : float)
      (rest : list float) (raw : list extracted_row) (w : world) :
  report cfg e (v0 :: v1 :: rest) raw w
  = (Returned tt,
     with_trace w (browser_open w) (evaluations w)
       (trace w
        ++ Stdout (Found v0 v1 (format_2f (abs (v0 - v1))))
        :: (if THRESHOLD cfg <=? abs (v0 - v1)
            then Post CHAT_ID (alert_of cfg v0 v1)
                 :: match failure_of (post_answer e) with
                    | Some ex => [Stdout (SendFailed ex)]
                    | None => []
                    end
                 ++ [Stdout AlertSent]
            else [Stdout NoAlert]))).
Proof.
  unfold report, evaluate. cbv beta iota zeta.
  cbn [first second difference shouldAlert].
  unfold bind at 1, print at 1, emit at 1. cbv beta iota.
  fold (alert_of cfg v0 v1).
  destruct (THRESHOLD cfg <=? abs (v0 - v1)).
  - unfold bind. rewrite send_telegram_message_log.
    unfold print, emit, with_trace.
    cbn [trace browser_open driver_running evaluations].
    repeat rewrite <- app_assoc. reflexivity.
  - unfold print, emit, with_trace. cbn.
    repeat rewrite <- app_assoc. reflexivity.
Qed.

(** X3: with two values or more [main] looks at the first two only.  It
    prints them with their difference; when the difference reaches the
    threshold it makes one request and then prints "Alert sent to
    Telegram." whether or not the request succeeded (a failure is only
    logged before it); otherwise it makes no request and prints that there
    is no alert.  It returns normally in both cases. *)
Theorem X3_report_two_values (cfg : config) (e : env) (v0 v1 : float)
        (rest : list float) (raw : list extracted_row) (w : world) :
  report cfg e (v0 :: v1 :: rest) raw w
  = (Returned tt,
     with_trace w (browser_open w) (evaluations w)
       (trace w
        ++ Stdout (Found v0 v1 (format_2f (abs (v0 - v1))))
        :: (if THRESHOLD cfg <=? abs (v0 - v1)
            then Post CHAT_ID (alert_of cfg v0 v1)
                 :: match failure_of (post_answer e) with
                    | Some ex => [Stdout (SendFailed ex)]
                    | None => []
                    end
                 ++ [Stdout AlertSent]
            else [Stdout NoAlert]))) /\
  report cfg e (v0 :: v1 :: rest) raw w = report cfg e [v0; v1] [] w.
Proof.
  split; [apply report_two_eq | reflexivity].
Qed.

Close Scope float_scope.

(** ** [main] as a whole *)

Lemma print_raw_trace (raw : list extracted_row) :
  forall (i : nat) (w : world),
    print_raw i raw w
    = (Returned tt,
       with_trace w (browser_open w) (evaluations w)
                  (trace w ++ raw_lines i raw)).
Proof.
  induction raw as [|item rest IH]; intros i w.
  - cbn. unfold ret, with_trace. rewrite app_nil_r. now destruct w.
  - cbn [print_raw raw_lines]. unfold bind, print, emit at 1.
    cbv beta iota. rewrite IH. unfold with_trace.
    cbn [trace browser_open driver_running evaluations].
    now rewrite <- app_assoc.
Qed.

Lemma posts_loop_events (cfg : config) (n : nat) :
  forall a, posts (loop_events cfg n a) = [].
Proof.
  induction n as [|n IH]; intro a; [reflexivity|]. cbn. apply IH.
Qed.

Lemma posts_raw_lines (raw : list extracted_row) :
  forall i, posts (raw_lines i raw) = [].
Proof.
  induction raw as [|item rest IH]; intro i; [reflexivity|]. cbn. apply IH.
Qed.

(** The fetch left by exhaustion, with the world it leaves. *)
Lemma scrape_exhausted (cfg : config) (e : env) (w : world) :
  goto_ok e = true ->
  (1 <= MAX_ATTEMPTS cfg)%Z ->
  (forall k, (Z.of_nat k < MAX_ATTEMPTS cfg)%Z ->
             length (attempt_values e (evaluations w + k)) < 2) ->
  scrape_xsol_apys cfg e w
  = (Returned ([], attempt_raw e (evaluations w
                                  + (Z.to_nat (MAX_ATTEMPTS cfg) - 1))),
     {| driver_running := false;
        browser_open := false;
        evaluations := evaluations w + Z.to_nat (MAX_ATTEMPTS cfg);
        trace := trace w
                 ++ [DriverStart; Launch; NewPage; Goto URL 60000]
                 ++ loop_events cfg (Z.to_nat (MAX_ATTEMPTS cfg)) 0
                 ++ [BrowserClose; DriverStop] |}).
Proof.
  intros Hgo Hmax Hshort.
  rewrite scrape_unfold, Hgo. cbv zeta.
  rewrite attempts_exhausted.
  - destruct (Z.to_nat (MAX_ATTEMPTS cfg)) as [|n'] eqn:Hn; [lia|].
    cbn [fst snd]. unfold stopped, with_trace, started.
    cbn [driver_running browser_open evaluations trace].
    rewrite Nat.sub_succ, Nat.sub_0_r.
    repeat rewrite <- app_assoc. reflexivity.
  - intros k Hk. cbn [started evaluations]. apply Hshort. lia.
Qed.

(** X4: when the page is reached and no attempt parses two values, [main]
    returns normally, makes no request at all, and after the fetch prints
    the warning, the header and one line for each raw row of the last
    attempt, numbered from 0 in the order of the rows. *)
Theorem X4_main_insufficient_data (cfg : config) (e : env) (w : world) :
  goto_ok e = true ->
  (1 <= MAX_ATTEMPTS cfg)%Z ->
  (forall k, (Z.of_nat k < MAX_ATTEMPTS cfg)%Z ->
             length (attempt_values e (evaluations w + k)) < 2) ->
  main cfg e w
  = (Returned tt,
     {| driver_running := false;
        browser_open := false;
        evaluations := evaluations w + Z.to_nat (MAX_ATTEMPTS cfg);
        trace := trace w
                 ++ Stdout (Scraping URL)
                 :: [DriverStart; Launch; NewPage; Goto URL 60000]
                 ++ loop_events cfg (Z.to_nat (MAX_ATTEMPTS cfg)) 0
                 ++ [BrowserClose; DriverStop;
                     Stdout FewerThanTwo; Stdout RawHeader]
                 ++ raw_lines 0
                      (attempt_raw e
                         (evaluations w
                          + (Z.to_nat (MAX_ATTEMPTS cfg) - 1))) |}) /\
  posts (trace (snd (main cfg e w))) = posts (trace w).
Proof.
  intros Hgo Hmax Hshort.
  assert (Hmain :
            main cfg e w
            = (Returned tt,
               {| driver_running := false;
                  browser_open := false;
                  evaluations := evaluations w + Z.to_nat (MAX_ATTEMPTS cfg);
                  trace := trace w
                           ++ Stdout (Scraping URL)
                           :: [DriverStart; Launch; NewPage; Goto URL 60000]
                           ++ loop_events cfg (Z.to_nat (MAX_ATTEMPTS cfg)) 0
                           ++ [BrowserClose; DriverStop;
                               Stdout FewerThanTwo; Stdout RawHeader]
                           ++ raw_lines 0
                                (attempt_raw e
                                   (evaluations w
                                    + (Z.to_nat (MAX_ATTEMPTS cfg) - 1))) |})).
  { rewrite main_unfold. cbv zeta.
    rewrite scrape_exhausted; auto. cbn [fst snd].
    unfold report, bind, print, emit. cbv beta iota.
    rewrite print_raw_trace. unfold with_trace.
    cbn [driver_running browser_open evaluations trace].
    repeat rewrite <- app_assoc. reflexivity. }
  split; [exact Hmain|].
  rewrite Hmain. cbn [snd trace].
  pose proof (posts_loop_events cfg (Z.to_nat (MAX_ATTEMPTS cfg)) 0%Z) as Hl.
  pose proof (posts_raw_lines
                (attempt_raw e
                   (evaluations w + (Z.to_nat (MAX_ATTEMPTS cfg) - 1))) 0)
    as Hr.
  unfold posts in *. rewrite filter_app. cbn [filter is_post app].
  rewrite filter_app, Hl. cbn [filter is_post app].
  rewrite Hr. now rewrite app_nil_r.
Qed.

(** The page that never shows more than one value, under the constants of
    the source. *)
Lemma X4_main_insufficient_data_witness :
  posts (trace (snd (main source_config env_one initial)))
  = posts (trace initial).
Proof.
  apply (proj2 (X4_main_insufficient_data source_config env_one initial
                  eq_refl
                  ltac:(vm_compute; intro H; discriminate H)
                  ltac:(intros k _; vm_compute; apply le_n))).
Defined.



(** ** Rounds and waits of the fetch *)

Lemma attempts_rounds (cfg : config) (e : env) (n : nat) :
  forall a raw w,
  exists k,
    k <= n /\
    snd (attempts cfg e n a raw w)
    = with_trace w false (evaluations w + k)
                 (trace w ++ loop_events cfg k a ++ [BrowserClose]).
Proof.
  induction n as [|n IH]; intros a raw w.
  - exists 0. split; [lia|]. rewrite attempts_done. cbn [snd loop_events app].
    now rewrite Nat.add_0_r.
  - rewrite attempts_step. cbv zeta.
    destruct (2 <=? length _)%nat.
    + exists 1. split; [lia|]. cbn [snd]. rewrite Nat.add_1_r.
      now rewrite <- app_assoc.
    + match goal with
      | |- context [attempts cfg e n ?a1 ?r1 ?w1] =>
          destruct (IH a1 r1 w1) as [k [Hk Hw]]
      end.
      exists (S k). split; [lia|]. rewrite Hw. unfold with_trace.
      cbn [driver_running browser_open evaluations trace].
      rewrite <- Nat.add_succ_comm, <- app_assoc. reflexivity.
Qed.

Lemma total_wait_loop_events (cfg : config) (k : nat) :
  forall a,
    (2 * total_wait (loop_events cfg k a)
     = BASE_WAIT_SECONDS cfg * 1000
       * (Z.of_nat k * (2 * a + Z.of_nat k + 1)))%Z.
Proof.
  induction k as [|k IH]; intro a.
  - cbn. lia.
  - cbn [loop_events app total_wait].
    specialize (IH (a + 1)%Z). unfold wait_ms.
    rewrite Nat2Z.inj_succ. nia.
Qed.

Lemma loop_events_wait (cfg : config) (k : nat) :
  forall a i,
    i < k ->
    nth_error (loop_events cfg k a) (3 * i + 1)
    = Some (WaitForTimeout (wait_ms cfg (a + Z.of_nat i))).
Proof.
  induction k as [|k IH]; intros a i Hi; [lia|].
  destruct i as [|i].
  - cbn [loop_events app Nat.mul Nat.add nth_error].
    now rewrite Z.add_0_r.
  - replace (3 * S i + 1) with (S (S (S (3 * i + 1)))) by lia.
    cbn [loop_events app nth_error]. rewrite IH by lia.
    do 3 f_equal. lia.
Qed.

(** X6: a fetch that reaches the page runs [k] rounds of the loop for some
    [k] not above [MAX_ATTEMPTS], whatever the page does: it evaluates the
    script [k] times, waits [BASE_WAIT_SECONDS * 1000 * (1 + i)]
    milliseconds in round [i], so [BASE_WAIT_SECONDS * 1000 * k (k + 1) / 2]
    in all, and does nothing else between reaching the page and closing
    the browser. *)
Theorem X6_fetch_rounds_and_waits (cfg : config) (e : env) (w : world) :
  goto_ok e = true ->
  exists k,
    (Z.of_nat k <= Z.max 0 (MAX_ATTEMPTS cfg))%Z /\
    snd (scrape_xsol_apys cfg e w)
    = {| driver_running := false;
         browser_open := false;
         evaluations := evaluations w + k;
         trace := trace w
                  ++ [DriverStart; Launch; NewPage; Goto URL 60000]
                  ++ loop_events cfg k 0
                  ++ [BrowserClose; DriverStop] |} /\
    (2 * total_wait (loop_events cfg k 0)
     = BASE_WAIT_SECONDS cfg * 1000 * (Z.of_nat k * (Z.of_nat k + 1)))%Z /\
    (forall i, i < k ->
               nth_error (loop_events cfg k 0) (3 * i + 1)
               = Some (WaitForTimeout
                         (BASE_WAIT_SECONDS cfg * 1000
                          * (1 + Z.of_nat i)))).
Proof.
  intro Hgo. rewrite scrape_unfold, Hgo. cbv zeta.
  destruct (attempts_rounds cfg e (Z.to_nat (MAX_ATTEMPTS cfg)) 0%Z None
                            (started w)) as [k [Hk Hw]].
  exists k. split; [lia|]. split; [|split].
  - cbn [snd]. rewrite Hw. unfold stopped, with_trace, started.
    cbn [driver_running browser_open evaluations trace].
    repeat rewrite <- app_assoc. reflexivity.
  - rewrite total_wait_loop_events. f_equal.
  - intros i Hi. rewrite loop_events_wait by exact Hi.
    unfold wait_ms. cbn [Z.add]. reflexivity.
Qed.

(** The page that never shows more than one value: four rounds. *)
Lemma X6_fetch_rounds_witness :
  exists k,
    (Z.of_nat k <= Z.max 0 (MAX_ATTEMPTS source_config))%Z /\
    snd (scrape_xsol_apys source_config env_one initial)
    = {| driver_running := false;
         browser_open := false;
         evaluations := evaluations initial + k;
         trace := trace initial
                  ++ [DriverStart; Launch; NewPage; Goto URL 60000]
                  ++ loop_events source_config k 0
                  ++ [BrowserClose; DriverStop] |} /\
    (2 * total_wait (loop_events source_config k 0)
     = BASE_WAIT_SECONDS source_config * 1000
       * (Z.of_nat k * (Z.of_nat k + 1)))%Z /\
    (forall i, i < k ->
               nth_error (loop_events source_config k 0) (3 * i + 1)
               = Some (WaitForTimeout
                         (BASE_WAIT_SECONDS source_config * 1000
                          * (1 + Z.of_nat i)))).
Proof.
  apply (X6_fetch_rounds_and_waits source_config env_one initial eq_refl).
Defined.

(** ** Texts the row extractor emits *)

Lemma includes_drop_space (c0 : ascii) (needle s : text) :
  js_space c0 = false ->
  includes (c0 :: needle) (drop_while js_space s) = includes (c0 :: needle) s.
Proof.
  intro Hc0. induction s as [|c s IH]; [reflexivity|].
  cbn [drop_while]. destruct (js_space c) eqn:Hsp; [|reflexivity].
  rewrite IH. cbn [includes starts_with].
  destruct (Ascii.eqb_spec c0 c) as [->|_]; [congruence | reflexivity].
Qed.

(** Trimming neither adds nor removes a percent sign. *)
Lemma has_percent_trim (s : text) : has_percent (trim s) = has_percent s.
Proof.
  unfold has_percent, trim. change (txt "%") with ["%"%char].
  rewrite <- (@includes_drop_space "%"%char [] s eq_refl).
  set (t := drop_while js_space s).
  change ["%"%char] with (rev ["%"%char]).
  rewrite includes_rev.
  rewrite (@includes_drop_space "%"%char [] (rev t) eq_refl).
  rewrite <- (includes_rev ["%"%char] (rev t)).
  now rewrite rev_involutive.
Qed.

Lemma drop_while_stops (p : ascii -> bool) (s : text) :
  stops p (drop_while p s).
Proof.
  induction s as [|c s IH]; [exact I|].
  cbn. destruct (p c) eqn:H; [exact IH | exact H].
Qed.

Lemma trim_trimmed (s : text) : trimmed (trim s).
Proof.
  unfold trimmed, trim.
  set (t := drop_while js_space s).
  pose proof (drop_while_stops js_space s) as Ht. fold t in Ht.
  pose proof (drop_while_stops js_space (rev t)) as Hu.
  pose proof (take_drop_while js_space (rev t)) as Hsplit.
  set (u := drop_while js_space (rev t)) in *.
  split; [|now rewrite rev_involutive].
  assert (Hrev : t = rev u ++ rev (take_while js_space (rev t))).
  { rewrite <- rev_app_distr, Hsplit. now rewrite rev_involutive. }
  destruct (rev u) as [|x ru]; [exact I|].
  rewrite Hrev in Ht. exact Ht.
Qed.

Lemma fourth_cell_source (r : element) :
  fourth_cell r = []
  \/ exists td, In td (descendants r) /\ fourth_cell r = trim (full_text td).
Proof.
  unfold fourth_cell.
  destruct (nth_error (querySelectorAll (Tag "td") r) 3) as [td|] eqn:Htd;
    [|now left].
  right. exists td. split; [|reflexivity].
  apply nth_error_In in Htd. unfold querySelectorAll in Htd.
  apply filter_In in Htd. exact (proj1 Htd).
Qed.

Lemma fallback_source (r : element) (apyText0 : text) :
  fallback r apyText0 = apyText0
  \/ exists el, In el (descendants r)
                /\ has_percent (full_text el) = true
                /\ fallback r apyText0 = trim (full_text el).
Proof.
  unfold fallback. rewrite querySelectorAll_any.
  destruct (find _ _) as [found|] eqn:Hf; [|now left].
  apply find_some in Hf. destruct Hf as [Hin Hfound].
  apply andb_true_iff in Hfound. destruct Hfound as [Htr Hp].
  rewrite Htr. right.
  apply in_map_iff in Hin. destruct Hin as [el0 [<- Hin]].
  exists el0. repeat split; auto.
Qed.

(** X7: the [apyText] of a row holds a percent sign exactly when the text
    of some descendant element of the row does; so an [apyText] without a
    percent sign means that no element of the row shows one. *)
Theorem X7_apy_text_percent_iff (r : element) :
  has_percent (apy_text_of r) = true
  <-> exists el, In el (descendants r) /\ has_percent (full_text el) = true.
Proof.
  unfold apy_text_of.
  assert (Hcond : negb (truthy (fourth_cell r))
                  || negb (has_percent (fourth_cell r))
                  = negb (has_percent (fourth_cell r))).
  { destruct (has_percent (fourth_cell r)) eqn:H.
    - now rewrite (has_percent_truthy _ H).
    - apply orb_true_r. }
  rewrite Hcond.
  destruct (has_percent (fourth_cell r)) eqn:Hp; cbn [negb].
  - split; [|intros _; exact Hp]. intros _.
    destruct (fourth_cell_source r) as [H|[td [Hin H]]].
    + rewrite H in Hp. discriminate Hp.
    + exists td. split; [exact Hin|].
      now rewrite H, has_percent_trim in Hp.
  - split.
    + intro H.
      destruct (fallback_source r (fourth_cell r)) as [Heq|[el0 [Hin [Hpe _]]]].
      * rewrite Heq in H. congruence.
      * now exists el0.
    + intros [el0 [Hin Hpe]]. unfold fallback.
      rewrite querySelectorAll_any.
      destruct (find _ _) as [found|] eqn:Hf.
      * apply find_some in Hf. destruct Hf as [_ Hfound].
        apply andb_true_iff in Hfound. destruct Hfound as [Htr Hpf].
        now rewrite Htr, has_percent_trim.
      * pose proof (find_none _ _ Hf (full_text el0)) as Hnone.
        cbv beta in Hnone.
        rewrite Hpe, (has_percent_truthy _ Hpe) in Hnone.
        discriminate Hnone.
        apply in_map_iff. now exists el0.
Qed.

Lemma apy_text_trimmed (r : element) : trimmed (apy_text_of r).
Proof.
  assert (Hfc : trimmed (fourth_cell r)).
  { destruct (fourth_cell_source r) as [->|[td [_ ->]]];
      [split; exact I | apply trim_trimmed]. }
  unfold apy_text_of.
  destruct (negb (truthy (fourth_cell r))
            || negb (has_percent (fourth_cell r))); [|exact Hfc].
  destruct (fallback_source r (fourth_cell r)) as [->|[el0 [_ [_ ->]]]];
    [exact Hfc | apply trim_trimmed].
Qed.

(** X8: every entry the script returns has a [rowText] that mentions
    "xsol" in lower case, and both its texts are trimmed: neither starts
    nor ends with white space. *)
Theorem X8_emitted_texts_trimmed (d : document) (row : extracted_row) :
  In row (page_script d) ->
  mentions_xsol (rowText row) = true /\
  trimmed (rowText row) /\
  trimmed (apyText row).
Proof.
  unfold page_script. rewrite fold_visit_row. cbn [app].
  intro Hin. apply in_map_iff in Hin. destruct Hin as [r [<- Hin]].
  apply filter_In in Hin. destruct Hin as [_ Hk].
  cbn [emitted rowText apyText]. split; [exact Hk|]. split.
  - apply trim_trimmed.
  - apply apy_text_trimmed.
Qed.

(** The first row of the page with mixed rows. *)
Lemma X8_emitted_texts_witness :
  mentions_xsol (txt "Pool XSol-1 4.2%") = true /\
  trimmed (txt "Pool XSol-1 4.2%") /\
  trimmed (txt "4.2%").
Proof.
  apply (X8_emitted_texts_trimmed
           page_mixed
           {| rowText := txt "Pool XSol-1 4.2%"; apyText := txt "4.2%" |}).
  vm_compute. left. reflexivity.
Defined.

(** ** What surrounds the number *)

Lemma match_here_other (c : ascii) (r : text) :
  is_digit c = false -> c <> "-"%char -> match_here (c :: r) = None.
Proof.
  intros Hd Hm. rewrite match_here_direct.
  rewrite lit_other by exact Hm. cbn [orelse].
  unfold number_direct. cbn [take_while]. now rewrite Hd.
Qed.

(** X9: text before the number that holds no digit and no hyphen is
    skipped: it changes neither what the regular expression finds nor the
    value parsed. *)
Theorem X9_prefix_without_digits_is_skipped (pre s : text) :
  (forall c, In c pre -> is_digit c = false /\ c <> "-"%char) ->
  search (pre ++ s) = search s /\
  parse_percent (pre ++ s) = parse_percent s.
Proof.
  intro Hpre.
  assert (Hs : search (pre ++ s) = search s).
  { induction pre as [|c pre IH]; [reflexivity|].
    cbn [app search].
    destruct (Hpre c (or_introl eq_refl)) as [Hd Hm].
    rewrite (match_here_other _ Hd Hm). cbn [orelse].
    apply IH. intros c' Hin. apply Hpre. now right. }
  split; [exact Hs|]. unfold parse_percent. now rewrite Hs.
Qed.

Open Scope float_scope.

(** A label before the percentage. *)
Lemma X9_prefix_witness :
  search (txt "Fixed APY: " ++ txt "44.80%") = search (txt "44.80%") /\
  parse_percent (txt "Fixed APY: " ++ txt "44.80%")
  = parse_percent (txt "44.80%").
Proof.
  apply (X9_prefix_without_digits_is_skipped (txt "Fixed APY: ")
                                             (txt "44.80%")).
  intros c Hin. cbn in Hin.
  repeat (destruct Hin as [<-|Hin];
          [split; [reflexivity | intro H; discriminate H]|]).
  destruct Hin.
Defined.

Close Scope float_scope.

(** Digits, the point and white space are the characters inside a
    token. *)
Lemma inner_run_digit (m : text) :
  run is_digit m -> forallb inner_char m = true.
Proof.
  unfold run. induction m as [|c m IH]; [reflexivity|].
  cbn [forallb]. intro H. apply andb_true_iff in H. destruct H as [Hc Hm].
  unfold inner_char at 1. now rewrite Hc, IH.
Qed.

Lemma inner_run_space (m : text) :
  run py_space m -> forallb inner_char m = true.
Proof.
  unfold run. induction m as [|c m IH]; [reflexivity|].
  cbn [forallb]. intro H. apply andb_true_iff in H. destruct H as [Hc Hm].
  unfold inner_char at 1. rewrite Hc, IH by exact Hm.
  now rewrite orb_true_r.
Qed.

Lemma inner_fraction (frac : text) :
  frac = [] \/ fraction frac -> forallb inner_char frac = true.
Proof.
  intros [->|[fs [-> [_ Hfs]]]]; [reflexivity|].
  cbn [forallb]. rewrite (inner_run_digit Hfs). reflexivity.
Qed.

(** A hyphen cannot stand inside a token. *)
Lemma no_minus_inside (l1 : text) :
  forallb inner_char l1 = true ->
  forall p r1 t,
    ~ In "%"%char p -> l1 ++ "%"%char :: r1 <> p ++ "-"%char :: t.
Proof.
  induction l1 as [|x l1 IH]; intros Hl1 p r1 t Hp Heq.
  - destruct p as [|c p]; [discriminate Heq|].
    injection Heq as <- _. apply Hp. now left.
  - cbn in Hl1. apply andb_true_iff in Hl1. destruct Hl1 as [Hx Hl1].
    destruct p as [|c p].
    + injection Heq as -> _. discriminate Hx.
    + injection Heq as _ Heq.
      apply (IH Hl1 p r1 t); [|exact Heq].
      intro Hin. apply Hp. now right.
Qed.

Lemma match_here_before_minus (c : ascii) (p t : text) :
  ~ In "%"%char (c :: p) -> match_here (c :: p ++ "-"%char :: t) = None.
Proof.
  intro Hp. destruct (match_here (c :: p ++ "-"%char :: t)) as [g|] eqn:Hm;
    [|reflexivity].
  apply match_here_token in Hm.
  destruct Hm as [sign [ds [frac [ws [rest
                   [Heq [Hsign [Hne [Hds [Hfrac [Hws _]]]]]]]]]]].
  assert (Hinner : forallb inner_char (ds ++ frac ++ ws) = true).
  { rewrite !forallb_app, (inner_run_digit Hds), (inner_fraction Hfrac),
      (inner_run_space Hws). reflexivity. }
  assert (Hp' : ~ In "%"%char p) by (intro H; apply Hp; now right).
  destruct Hsign as [->| ->].
  - destruct ds as [|d ds]; [now elim Hne|].
    cbn in Heq. injection Heq as _ Heq.
    cbn in Hinner. apply andb_true_iff in Hinner.
    destruct Hinner as [_ Hinner].
    elim (@no_minus_inside (ds ++ frac ++ ws) Hinner p rest t Hp').
    rewrite <- !app_assoc. first [exact Heq | symmetry; exact Heq].
  - cbn in Heq. injection Heq as _ Heq.
    elim (@no_minus_inside (ds ++ frac ++ ws) Hinner p rest t Hp').
    rewrite <- !app_assoc. first [exact Heq | symmetry; exact Heq].
Qed.

Lemma py_float_negative (ds fs : text) :
  ds <> [] -> run is_digit ds -> run is_digit fs ->
  py_float ("-"%char :: ds
            ++ match fs with [] => [] | _ :: _ => "."%char :: fs end)
  = Some (round_decimal true (digits_val (ds ++ fs)) (length fs)).
Proof.
  intros Hne Hds Hfs. unfold py_float. rewrite Ascii.eqb_refl.
  destruct fs as [|f fs].
  - pose proof (@take_while_app is_digit ds [] Hds I) as Ht.
    pose proof (@drop_while_app is_digit ds [] Hds I) as Hd.
    rewrite app_nil_r in *. rewrite Ht, Hd.
    destruct ds; [now elim Hne | now rewrite ?app_nil_r].
  - rewrite take_while_app, drop_while_app
      by (assumption || reflexivity).
    rewrite Ascii.eqb_refl. unfold run in Hfs. rewrite Hfs.
    destruct ds; [now elim Hne | reflexivity].
Qed.

Open Scope float_scope.

(** X10: a hyphen right before the digits is always read as a minus sign,
    whatever stands before it, as long as no percent sign does: the value
    parsed is the negative number, so that a range written "3-5%" gives
    -5. *)
Theorem X10_hyphen_before_number_is_a_minus (pre ds fs ws rest : text) :
  ~ In "%"%char pre ->
  ds <> [] -> run is_digit ds -> run is_digit fs -> run py_space ws ->
  parse_percent
    (pre ++ "-"%char :: ds
         ++ match fs with [] => [] | _ :: _ => "."%char :: fs end
         ++ ws ++ "%"%char :: rest)
  = Some (round_decimal true (digits_val (ds ++ fs)) (length fs)).
Proof.
  intros Hpre Hne Hds Hfs Hws.
  set (frac := match fs with [] => [] | _ :: _ => "."%char :: fs end).
  assert (Hfrac : frac = [] \/ fraction frac).
  { subst frac. destruct fs as [|f fs]; [now left|].
    right. exists (f :: fs). repeat split; auto. discriminate. }
  assert (Hs : search (pre ++ "-"%char :: ds ++ frac ++ ws ++ "%"%char :: rest)
               = Some ("-"%char :: ds ++ frac)).
  { induction pre as [|c pre IH].
    - cbn [app search].
      assert (Hm : match_here
                     ("-"%char :: ds ++ frac ++ ws ++ "%"%char :: rest)
                   = Some ("-"%char :: ds ++ frac)).
      { apply match_here_token.
        exists ["-"%char], ds, frac, ws, rest. repeat split; auto. }
      now rewrite Hm.
    - cbn [app search]. rewrite match_here_before_minus by exact Hpre.
      cbn [orelse]. apply IH. intro Hin. apply Hpre. now right. }
  unfold parse_percent. rewrite Hs. subst frac.
  now apply py_float_negative.
Qed.

(** The range "3-5%". *)
Lemma X10_hyphen_witness : parse_percent (txt "3-5%") = Some (-5).
Proof.
  apply (@X10_hyphen_before_number_is_a_minus (txt "3") (txt "5") [] [] []).
  - intros [H|[]]. discriminate H.
  - discriminate.
  - reflexivity.
  - reflexivity.
  - reflexivity.
Defined.

Close Scope float_scope.

(** ** What follows the first percentage *)

Lemma first_percent_split (s : text) :
  In "%"%char s ->
  exists a b, s = a ++ "%"%char :: b /\ ~ In "%"%char a.
Proof.
  induction s as [|c s IH]; intro Hin; [destruct Hin|].
  destruct (Ascii.eqb_spec c "%") as [->|Hc].
  - exists [], s. split; [reflexivity | intros []].
  - destruct Hin as [Heq|Hin]; [now elim Hc|].
    destruct (IH Hin) as [a [b [-> Ha]]].
    exists (c :: a), b. split; [reflexivity|].
    intros [H|H]; [now elim Hc | now elim Ha].
Qed.

Lemma first_percent_unique (l1 : text) :
  forall a r b,
    ~ In "%"%char l1 -> ~ In "%"%char a ->
    l1 ++ "%"%char :: r = a ++ "%"%char :: b ->
    l1 = a /\ r = b.
Proof.
  induction l1 as [|x l1 IH]; intros a r b Hl Ha Heq.
  - destruct a as [|c a].
    + injection Heq as ->. now split.
    + injection Heq as <- _. elim Ha. now left.
  - destruct a as [|c a].
    + injection Heq as -> _. elim Hl. now left.
    + injection Heq as -> Heq.
      destruct (IH a r b) as [-> ->]; auto.
      * intro H. apply Hl. now right.
      * intro H. apply Ha. now right.
Qed.

(** No percent sign stands inside a token before its own. *)
Lemma token_body_no_percent (sign ds frac ws : text) :
  sign = [] \/ sign = ["-"%char] ->
  run is_digit ds -> frac = [] \/ fraction frac -> run py_space ws ->
  ~ In "%"%char (sign ++ ds ++ frac ++ ws).
Proof.
  intros Hsign Hds Hfrac Hws Hin.
  assert (Hinner : forall m, forallb inner_char m = true ->
                             ~ In "%"%char m).
  { intros m Hm H. rewrite forallb_forall in Hm.
    specialize (Hm _ H). discriminate Hm. }
  apply in_app_or in Hin. destruct Hin as [Hin|Hin].
  - destruct Hsign as [->| ->]; [destruct Hin|].
    destruct Hin as [H|[]]. discriminate H.
  - revert Hin. apply Hinner.
    rewrite !forallb_app, (inner_run_digit Hds), (inner_fraction Hfrac),
      (inner_run_space Hws). reflexivity.
Qed.

Lemma match_here_app_some (s t g : text) :
  match_here s = Some g -> match_here (s ++ t) = Some g.
Proof.
  intro H. apply match_here_token in H. apply match_here_token.
  destruct H as [sign [ds [frac [ws [rest [-> [? [? [? [? [? ->]]]]]]]]]]].
  exists sign, ds, frac, ws, (rest ++ t). repeat split; auto.
  now rewrite <- !app_assoc.
Qed.

Lemma match_here_app_none (s t : text) :
  match_here s = None -> In "%"%char s -> match_here (s ++ t) = None.
Proof.
  intros Hnone Hin.
  destruct (match_here (s ++ t)) as [g|] eqn:Hm; [|reflexivity].
  apply match_here_token in Hm.
  destruct Hm as [sign [ds [frac [ws [rest
                   [Heq [Hsign [Hne [Hds [Hfrac [Hws ->]]]]]]]]]]].
  destruct (first_percent_split s Hin) as [a [b [-> Ha]]].
  pose proof (token_body_no_percent Hsign Hds Hfrac Hws) as Hbody.
  assert (Heq' : (sign ++ ds ++ frac ++ ws) ++ "%"%char :: rest
                 = a ++ "%"%char :: b ++ t).
  { rewrite <- !app_assoc. rewrite <- app_assoc in Heq. cbn in Heq.
    now symmetry. }
  destruct (first_percent_unique _ _ _ _ Hbody Ha Heq') as [<- _].
  assert (Htok : pct_token (sign ++ ds ++ frac)
                           ((sign ++ ds ++ frac ++ ws) ++ "%"%char :: b)).
  { exists sign, ds, frac, ws, b. repeat split; auto.
    now rewrite <- !app_assoc. }
  apply match_here_token in Htok. congruence.
Qed.

Lemma search_percent (s g : text) : search s = Some g -> In "%"%char s.
Proof.
  intro H. apply search_some in H.
  destruct H as [pre [suf [-> [Htok _]]]].
  destruct Htok as [sign [ds [frac [ws [rest [-> _]]]]]].
  apply in_or_app. right. rewrite !app_assoc. apply in_or_app. right.
  now left.
Qed.

(** X11: once a string holds a percentage, nothing appended to it changes
    what is found: the result is settled by the text up to the first
    match, and later percentages are never looked at. *)
Theorem X11_text_after_first_match_is_ignored (s t : text) (g : text) :
  search s = Some g ->
  search (s ++ t) = Some g /\ parse_percent (s ++ t) = parse_percent s.
Proof.
  intro Hs.
  assert (H : search (s ++ t) = Some g).
  { revert Hs. induction s as [|c s IH]; intro Hs; [discriminate Hs|].
    cbn [app search] in *.
    destruct (match_here (c :: s)) as [g0|] eqn:Hm.
    - cbn [orelse] in Hs. injection Hs as ->.
      change (c :: s ++ t) with ((c :: s) ++ t).
      now rewrite (match_here_app_some _ t Hm).
    - cbn [orelse] in Hs.
      change (c :: s ++ t) with ((c :: s) ++ t).
      rewrite (match_here_app_none _ t Hm).
      + cbn [orelse]. now apply IH.
      + right. exact (search_percent _ Hs). }
  split; [exact H|]. unfold parse_percent. now rewrite H, Hs.
Qed.

Open Scope float_scope.

(** A second percentage after the first. *)
Lemma X11_later_text_witness :
  search (txt "44.80%" ++ txt " vs 41.50%") = Some (txt "44.80") /\
  parse_percent (txt "44.80%" ++ txt " vs 41.50%")
  = parse_percent (txt "44.80%").
Proof.
  apply (@X11_text_after_first_match_is_ignored
           (txt "44.80%") (txt " vs 41.50%") (txt "44.80")).
  vm_compute. reflexivity.
Defined.

Close Scope float_scope.

(** ** The difference as a number *)

Open Scope float_scope.

Lemma abs_not_negative (x : float) : (abs x <? 0) = false.
Proof.
  rewrite ltb_spec, abs_spec.
  change (Prim2SF 0) with (S754_zero false).
  destruct (Prim2SF x) as [s|s| |s m e]; reflexivity.
Qed.

Lemma leb_not_nan (x y : float) :
  (x <=? y) = true -> is_nan x = false /\ is_nan y = false.
Proof.
  unfold is_nan. rewrite leb_spec, !eqb_spec. unfold SFleb, SFeqb.
  intro H.
  assert (Hrefl : forall s, s <> S754_nan -> SFcompare s s = Some Eq).
  { intros [[]|[]| |[] m e] Hs; cbn; try reflexivity; try (now elim Hs);
      rewrite Z.compare_refl, Pos.compare_cont_refl; reflexivity. }
  destruct (Prim2SF x) as [sx|sx| |sx mx ex] eqn:Hx;
    destruct (Prim2SF y) as [sy|sy| |sy my ey] eqn:Hy;
    try discriminate H;
    rewrite !Hrefl by discriminate; split; reflexivity.
Qed.

(** X12: the difference [main] computes is never negative, and an alert
    is never raised on a difference (or against a threshold) that is not a
    number, as when both values are too large for a float. *)
Theorem X12_difference_is_not_negative (values : list float)
        (threshold : float) (d : AlertDecision) :
  evaluate values threshold = Some d ->
  (difference d <? 0) = false /\
  (shouldAlert d = true ->
   is_nan (difference d) = false /\ is_nan threshold = false
   /\ (0 <=? difference d) = true).
Proof.
  destruct values as [|v0 [|v1 rest]]; try discriminate.
  cbn. intro H. injection H as <-.
  cbn [difference shouldAlert]. split; [apply abs_not_negative|].
  intro Hle. destruct (leb_not_nan Hle) as [Ht Hd].
  repeat split; auto.
  pose proof (abs_not_negative (v0 - v1)) as Hlt.
  revert Hd Hlt. unfold is_nan.
  rewrite leb_spec, ltb_spec, eqb_spec. unfold SFleb, SFltb, SFeqb.
  change (Prim2SF 0) with (S754_zero false).
  destruct (Prim2SF (abs (v0 - v1))) as [s|s| |s m e];
    try (destruct s); cbn; intros; try reflexivity; discriminate.
Qed.

(** The values 44.80 and 41.50 against the threshold 3. *)
Lemma X12_difference_witness :
  (0x1.a66666666666p+1 <? 0) = false /\
  (true = true ->
   is_nan 0x1.a66666666666p+1 = false /\ is_nan 3 = false
   /\ (0 <=? 0x1.a66666666666p+1) = true).
Proof.
  apply (@X12_difference_is_not_negative
           [44.80; 41.50] 3
           {| first := 44.80; second := 41.50;
              difference := 0x1.a66666666666p+1; shouldAlert := true |}).
  vm_compute. reflexivity.
Defined.

Close Scope float_scope.

(** ** One run, one alert at most *)

Open Scope float_scope.

Lemma scrape_quiet (cfg : config) (e : env) (w : world) :
  posts (trace (snd (scrape_xsol_apys cfg e w))) = posts (trace w).
Proof.
  rewrite scrape_unfold. destruct (goto_ok e); cbv zeta; cbn [snd].
  - destruct (attempts_rounds cfg e (Z.to_nat (MAX_ATTEMPTS cfg)) 0%Z None
                              (started w)) as [k [_ Hw]].
    rewrite Hw. unfold stopped, with_trace, started. cbn [trace].
    rewrite !posts_app, posts_loop_events. cbn. now rewrite !app_nil_r.
  - unfold stopped, started. cbn [trace].
    rewrite !posts_app. cbn. now rewrite !app_nil_r.
Qed.

Lemma report_empty (cfg : config) (e : env) (raw : list extracted_row)
      (w : world) :
  report cfg e [] raw w
  = (Returned tt,
     with_trace w (browser_open w) (evaluations w)
                (trace w ++ [Stdout FewerThanTwo; Stdout RawHeader]
                         ++ raw_lines 0 raw)).
Proof.
  unfold report, bind, print, emit. cbv beta iota.
  rewrite print_raw_trace. unfold with_trace.
  cbn [driver_running browser_open evaluations trace].
  repeat rewrite <- app_assoc. reflexivity.
Qed.

(** The requests of a run of [main]. *)
Lemma main_posts (cfg : config) (e : env) (w : world) :
  posts (trace (snd (main cfg e w)))
  = posts (trace w)
    ++ match fst (scrape_xsol_apys cfg e (announced w)) with
       | Returned (v0 :: v1 :: _, _) =>
           if THRESHOLD cfg <=? abs (v0 - v1)
           then [Post CHAT_ID (alert_of cfg v0 v1)]
           else []
       | _ => []
       end.
Proof.
  rewrite main_unfold. cbv zeta. fold (announced w).
  pose proof (scrape_quiet cfg e (announced w)) as Hq.
  pose proof (scrape_shape cfg e (announced w)) as Hsh.
  destruct (scrape_xsol_apys cfg e (announced w)) as [[[apys raw]|ex] w1];
    cbn [fst snd] in *.
  - destruct apys as [|v0 [|v1 rest]].
    + rewrite report_empty. cbn [snd]. unfold with_trace. cbn [trace].
      rewrite !posts_app, posts_raw_lines, Hq.
      unfold announced, with_trace. cbn [trace].
      rewrite posts_app. cbn. now rewrite !app_nil_r.
    + destruct Hsh as [H|H]; [discriminate H | cbn in H; lia].
    + rewrite report_two_eq. cbn [snd]. unfold with_trace. cbn [trace].
      rewrite posts_app, Hq. unfold announced, with_trace. cbn [trace].
      rewrite posts_app. cbn [posts filter is_post]. rewrite app_nil_r.
      f_equal.
      destruct (THRESHOLD cfg <=? abs (v0 - v1)); [|reflexivity].
      cbn [filter is_post]. f_equal.
      destruct (failure_of (post_answer e)); reflexivity.
  - rewrite Hq. unfold announced, with_trace. cbn [trace].
    rewrite posts_app. cbn. now rewrite !app_nil_r.
Qed.

(** X13: one run of [main] makes at most one request.  It makes one
    exactly when the fetch returned values whose first two differ by the
    threshold or more, and the message then carries those two values;
    everything else the run does sends nothing. *)
Theorem X13_one_alert_at_most (cfg : config) (e : env) (w : world) :
  posts (trace (snd (main cfg e w)))
  = posts (trace w)
    ++ match fst (scrape_xsol_apys cfg e (announced w)) with
       | Returned (v0 :: v1 :: _, _) =>
           if THRESHOLD cfg <=? abs (v0 - v1)
           then [Post CHAT_ID (alert_of cfg v0 v1)]
           else []
       | _ => []
       end /\
  length (posts (trace (snd (main cfg e w))))
  <= S (length (posts (trace w))).
Proof.
  split; [apply main_posts|]. rewrite main_posts, length_app.
  destruct (fst (scrape_xsol_apys cfg e (announced w)))
    as [[[|v0 [|v1 rest]] raw]|ex]; cbn [length]; try lia.
  destruct (THRESHOLD cfg <=? abs (v0 - v1)); cbn [length]; lia.
Qed.

Close Scope float_scope.

Lemma values_le_rows (raw : list extracted_row) :
  length (values_of raw) <= length raw.
Proof.
  unfold values_of, parse_rows. rewrite fold_parse_item. cbn [fst app].
  induction raw as [|item raw IH]; [apply le_n|].
  cbn [flat_map]. rewrite length_app.
  destruct (row_value item); cbn [option_list length]; lia.
Qed.

Lemma page_script_label_rows (d : document) :
  page_script d = map emitted (label_rows d).
Proof. unfold page_script, label_rows. now rewrite fold_visit_row. Qed.

(** The values the loop returns are those of one of its rounds. *)
Lemma attempts_origin (cfg : config) (e : env) (n : nat) :
  forall a raw w,
    match fst (attempts cfg e n a raw w) with
    | Returned r =>
        fst r = []
        \/ exists k, fst r = attempt_values e (evaluations w + k)
      | Raised _ => True
    end.
Proof.
  induction n as [|n IH]; intros a raw w.
  - rewrite attempts_done. destruct raw; cbn; auto.
  - rewrite attempts_step. cbv zeta.
    destruct (2 <=? length _)%nat.
    + cbn [fst]. right. exists 0. now rewrite Nat.add_0_r.
    + match goal with
      | |- context [attempts cfg e n ?a1 ?r1 ?w1] =>
          specialize (IH a1 r1 w1);
          destruct (fst (attempts cfg e n a1 r1 w1)) as [r|ex]
      end; [|exact I].
      destruct IH as [H|[k H]]; [now left|].
      right. exists (S k). rewrite H. cbn [with_trace evaluations].
      now rewrite Nat.add_succ_comm.
Qed.

(** X14: at most one value is taken from a row, so a page on which fewer
    than two rows mention the label, at every moment it is looked at, can
    never lead to a request, however many percentages the row shows and
    whatever the constants are. *)
Theorem X14_single_row_never_alerts (cfg : config) (e : env) (w : world) :
  (forall k, length (label_rows (dom_at e k)) < 2) ->
  posts (trace (snd (main cfg e w))) = posts (trace w) /\
  (forall k, length (attempt_values e k) < 2).
Proof.
  intro Hrows.
  assert (Hshort : forall k, length (attempt_values e k) < 2).
  { intro k. unfold attempt_values, attempt_raw.
    rewrite page_script_label_rows.
    pose proof (values_le_rows (map emitted (label_rows (dom_at e k))))
      as Hle.
    rewrite length_map in Hle. specialize (Hrows k). lia. }
  split; [|exact Hshort].
  rewrite main_posts.
  destruct (fst (scrape_xsol_apys cfg e (announced w)))
    as [[[|v0 [|v1 rest]] raw]|ex] eqn:Hs; try (now rewrite app_nil_r).
  exfalso. rewrite scrape_unfold in Hs.
  destruct (goto_ok e); [|discriminate Hs]. cbv zeta in Hs. cbn [fst] in Hs.
  pose proof (attempts_origin cfg e (Z.to_nat (MAX_ATTEMPTS cfg)) 0%Z None
                              (started (announced w))) as Ho.
  rewrite Hs in Ho. cbn [fst] in Ho.
  destruct Ho as [H|[k H]]; [discriminate H|].
  specialize (Hshort (evaluations (started (announced w)) + k)).
  rewrite <- H in Hshort. cbn in Hshort. lia.
Qed.

(** The page with one row that mentions the label. *)
Lemma X14_single_row_witness :
  posts (trace (snd (main source_config env_one initial)))
  = posts (trace initial) /\
  (forall k, length (attempt_values env_one k) < 2).
Proof.
  apply (X14_single_row_never_alerts source_config env_one initial).
  intro k. vm_compute. apply le_n.
Defined.
